(** * The animal guesser: candidate filter, question selector, guess scorer
      and learning updater of [animal_guesser.py]

    The development embeds the algorithmic core of [AnimalGuesserML]:
    [calculate_entropy], [get_best_question], [filter_candidates],
    [make_guess], [learn_from_game],
    [extract_features_from_description] and the game loop [play_game].

    Conventions of the embedding.
    - A Python [dict] with string keys is a [gmap string _]; [d.get(k, 0)]
      is a lookup with default.  No function of the core depends on the
      order in which a dictionary is traversed, so [d.items()] is
      [map_to_list].
    - Feature values are rationals [Q] (they are only compared with 0.5);
      answers are integers [Z].  The arithmetic of [make_guess] is exact
      rational arithmetic.
    - The entropy, the weights and the weighted gains of the question
      selector are IEEE binary64 numbers, the [float] of Python: Rocq's
      primitive floats with their operations.  [math.log2] comes from the C
      library; it is a parameter [log2] of the selector, about which
      nothing is assumed.
    - [self.animals] is a list; an entity mutated in place is a list update
      at the index where the lookup loop found it.
    - Console output and [save_data] are left out: they do not feed back
      into the state the core works on.  Console input is the list of the
      lines still to be read; [input] takes its head, and an empty list is
      the end of input, at which [play_game] stops with an exception. *)

From Stdlib Require Import Ascii String QArith Lia Uint63 Floats.
From Stdlib Require Lqa.
From stdpp Require Import gmap strings list fin_maps.

Local Open Scope string_scope.
Local Open Scope list_scope.
Local Set Warnings "-inexact-float".

(** ** Data model *)

Record animal := Animal {
  name : string;
  features : gmap string Q
}.

Record question := Question {
  text : string;
  feature : string;
  weight : float
}.
Arguments Question _ _ _%_float.

(** [features.get(feature, 0)] *)
Definition get (d : gmap string Q) (k : string) (dflt : Q) : Q :=
  default dflt (d !! k).

(** Strict comparison of two numbers, [x < y]. *)
Definition Qltb (x y : Q) : bool :=
  (Qnum x * QDen y <? Qnum y * QDen x)%Z.

(** [answers.items()] *)
Definition items (answers : gmap string Z) : list (string * Z) :=
  map_to_list answers.

(** ** Candidate filter *)

(** The inner loop of [filter_candidates]: [matches] starts [True] and the
    loop leaves with [False] at the first pair that rules the animal out. *)
Fixpoint matches (a : animal) (pairs : list (string * Z)) : bool :=
  match pairs with
  | [] => true
  | (feature, answer) :: rest =>
      let animal_value := get (features a) feature 0 in
      if (answer =? 1)%Z && Qltb animal_value (1 # 2) then false
      else if (answer =? 0)%Z && Qltb (1 # 2) animal_value then false
      else matches a rest
  end.

Definition filter_candidates (animals : list animal) (answers : gmap string Z)
  : list animal :=
  fold_left
    (fun candidates a =>
       if matches a (items answers) then candidates ++ [a] else candidates)
    animals [].

(** The rule of the candidate filter, in the words of the specification. *)
Definition value (a : animal) (f : string) : Q := get (features a) f 0.

Definition excluded (a : animal) (f : string) (answer : Z) : Prop :=
  (answer = 1%Z ∧ (value a f < 1 # 2)%Q) ∨ (answer = 0%Z ∧ (1 # 2 < value a f)%Q).

Definition survives (a : animal) (answers : gmap string Z) : Prop :=
  map_Forall (fun f answer => ¬ excluded a f answer) answers.

#[global] Instance Qlt_decision (x y : Q) : Decision (x < y)%Q.
Proof.
  destruct (Qlt_le_dec x y) as [H | H]; [left; exact H | right].
  intros H'. exact (Qlt_not_le _ _ H' H).
Defined.

#[global] Instance excluded_decision a f answer : Decision (excluded a f answer).
Proof. unfold excluded. apply _. Defined.

#[global] Instance survives_decision a answers : Decision (survives a answers).
Proof. unfold survives. apply _. Defined.

(** ** Seed data of [load_animals] and [load_questions] *)

Definition features_of (l : list (string * Q)) : gmap string Q := list_to_map l.

Definition default_animals : list animal :=
  [ Animal "Dog" (features_of [("mammal", 1%Q); ("domestic", 1%Q); ("four_legs", 1%Q); ("barks", 1%Q); ("carnivore", (1 # 2)%Q)]);
    Animal "Cat" (features_of [("mammal", 1%Q); ("domestic", 1%Q); ("four_legs", 1%Q); ("purrs", 1%Q); ("carnivore", 1%Q)]);
    Animal "Elephant" (features_of [("mammal", 1%Q); ("large", 1%Q); ("four_legs", 1%Q); ("trunk", 1%Q); ("herbivore", 1%Q)]);
    Animal "Lion" (features_of [("mammal", 1%Q); ("carnivore", 1%Q); ("four_legs", 1%Q); ("wild", 1%Q); ("roars", 1%Q)]);
    Animal "Fish" (features_of [("aquatic", 1%Q); ("fins", 1%Q); ("gills", 1%Q); ("scales", 1%Q); ("cold_blooded", 1%Q)]);
    Animal "Bird" (features_of [("flies", 1%Q); ("feathers", 1%Q); ("beak", 1%Q); ("lays_eggs", 1%Q); ("warm_blooded", 1%Q)]);
    Animal "Snake" (features_of [("reptile", 1%Q); ("no_legs", 1%Q); ("cold_blooded", 1%Q); ("carnivore", 1%Q); ("long", 1%Q)]);
    Animal "Rabbit" (features_of [("mammal", 1%Q); ("herbivore", 1%Q); ("four_legs", 1%Q); ("hops", 1%Q); ("long_ears", 1%Q)]);
    Animal "Bear" (features_of [("mammal", 1%Q); ("large", 1%Q); ("four_legs", 1%Q); ("omnivore", 1%Q); ("wild", 1%Q)]);
    Animal "Whale" (features_of [("mammal", 1%Q); ("aquatic", 1%Q); ("large", 1%Q); ("intelligent", 1%Q); ("warm_blooded", 1%Q)]) ].

Definition default_questions : list question :=
  [ Question "Is it a mammal?" "mammal" 0.8;
    Question "Does it live on land?" "terrestrial" 0.7;
    Question "Is it larger than a house cat?" "large" 0.6;
    Question "Is it a carnivore (meat-eater)?" "carnivore" 0.7;
    Question "Does it have four legs?" "four_legs" 0.8;
    Question "Is it a domestic animal?" "domestic" 0.6;
    Question "Can it fly?" "flies" 0.9;
    Question "Does it live in water?" "aquatic" 0.8;
    Question "Is it a predator?" "predator" 0.6;
    Question "Does it have fur?" "fur" 0.7 ].

(** ** Question selector *)

(** A list length as a float.  [yes_count / total] divides two Python
    integers, which gives the correctly rounded quotient; for lengths below
    2^53 that is the float quotient of the two lengths converted exactly. *)
Definition float_of_nat (n : nat) : float :=
  PrimFloat.of_uint63 (Uint63.of_Z (Z.of_nat n)).

(** [sum(1 for animal in candidates if animal['features'].get(feature, 0) > 0.5)] *)
Fixpoint yes_count (candidates : list animal) (feature : string) : nat :=
  match candidates with
  | [] => 0
  | animal :: rest =>
      if Qltb (1 # 2) (get (features animal) feature 0)
      then 1 + yes_count rest feature
      else yes_count rest feature
  end.

(** [[q for q in self.questions if q['feature'] not in asked_features]] *)
Definition available_questions (questions : list question)
    (asked_features : list string) : list question :=
  List.filter
    (fun q => negb (existsb (String.eqb (feature q)) asked_features))
    questions.

Definition unused_questions (questions : list question)
    (asked_features : list string) : list question :=
  filter (fun q => feature q ∉ asked_features) questions.

Section QuestionSelector.

(** [math.log2].  It raises an error on arguments that are not above 0;
    the two ratios it is given lie strictly between 0 and 1 for every
    candidate list of fewer than 2^53 entities. *)
Variable log2 : float → float.

Definition calculate_entropy (candidates : list animal) (feature : string)
  : float :=
  if (length candidates <=? 1)%nat then 0%float
  else
    let yes_count := yes_count candidates feature in
    let total := length candidates in
    if (yes_count =? 0)%nat || (yes_count =? total)%nat then 0%float
    else
      let yes_ratio := (float_of_nat yes_count / float_of_nat total)%float in
      let no_ratio := (1 - yes_ratio)%float in
      (- (yes_ratio * log2 yes_ratio + no_ratio * log2 no_ratio))%float.

(** The selection loop of [get_best_question], threading [best_question]
    and [max_gain]; [weighted_gain > max_gain] is the comparison of two
    floats. *)
Fixpoint best_question_loop (candidates : list animal)
    (available : list question) (best_question : option question)
    (max_gain : float) : option question :=
  match available with
  | [] => best_question
  | q :: rest =>
      let entropy := calculate_entropy candidates (feature q) in
      let weighted_gain := (entropy * weight q)%float in
      if (max_gain <? weighted_gain)%float
      then best_question_loop candidates rest (Some q) weighted_gain
      else best_question_loop candidates rest best_question max_gain
  end.

Definition get_best_question (questions : list question)
    (candidates : list animal) (asked_features : list string)
  : option question :=
  let available := available_questions questions asked_features in
  match available with
  | [] => None
  | _ => best_question_loop candidates available None 0%float
  end.

(** The quantities the specification of the selector speaks of.  The
    entropy of the split of the candidates by a feature: 0 when there is at
    most one candidate or when no candidate, or every candidate, has a
    value above 0.5; otherwise the binary Shannon entropy of the fraction
    [p] of such candidates, evaluated in floating point.  The weighted gain
    of a question is that entropy times the weight. *)
Definition shannon (p : float) : float :=
  (- (p * log2 p + (1 - p) * log2 (1 - p)))%float.

Definition split_entropy (candidates : list animal) (f : string) : float :=
  let yes := length (filter (fun a => (1 # 2 < value a f)%Q) candidates) in
  let total := length candidates in
  if decide ((total ≤ 1)%nat ∨ yes = 0%nat ∨ yes = total) then 0%float
  else shannon (float_of_nat yes / float_of_nat total)%float.

Definition weighted_gain (candidates : list animal) (q : question) : float :=
  (split_entropy candidates (feature q) * weight q)%float.

End QuestionSelector.

(** [math.log2] on the powers of two, where its value is an integer and
    exact: [x = 0.5 * 2^e] has logarithm [e - 1].  Only these arguments are
    covered (any other gives [nan]); the examples below that run the
    selector split the candidates in halves and use no other. *)
Definition log2_exact (x : float) : float :=
  let '(m, e) := Z.frexp x in
  if (m =? 0.5)%float
  then if (e - 1 <? 0)%Z
       then (- PrimFloat.of_uint63 (Uint63.of_Z (1 - e)))%float
       else PrimFloat.of_uint63 (Uint63.of_Z (e - 1))
  else nan.

(** ** Guess scorer *)

(** The scoring loop of [make_guess] over [answers.items()]; [score] starts
    at 0 and grows by one for each answer the animal agrees with. *)
Fixpoint count_matches (a : animal) (pairs : list (string * Z)) (score : Z) : Z :=
  match pairs with
  | [] => score
  | (feature, answer) :: rest =>
      let animal_value := get (features a) feature 0 in
      if ((answer =? 1)%Z && Qltb (1 # 2) animal_value)
         || ((answer =? 0)%Z && Qltb animal_value (1 # 2))
      then count_matches a rest (score + 1)
      else count_matches a rest score
  end.

(** [score / total_features if total_features > 0 else 0] *)
Definition normalized_score (a : animal) (answers : gmap string Z) : Q :=
  let score := count_matches a (items answers) 0 in
  let total_features := Z.of_nat (size answers) in
  if (0 <? total_features)%Z
  then (inject_Z score / inject_Z total_features)%Q
  else 0%Q.

(** The loop over the candidates, threading [best_animal] and [best_score]. *)
Fixpoint best_candidate (candidates : list animal) (answers : gmap string Z)
    (best_animal : option animal) (best_score : Q) : option animal * Q :=
  match candidates with
  | [] => (best_animal, best_score)
  | a :: rest =>
      let n := normalized_score a answers in
      if Qltb best_score n
      then best_candidate rest answers (Some a) n
      else best_candidate rest answers best_animal best_score
  end.

(** Python's two-argument [max] and [min]: the first argument is kept unless
    the second is strictly greater (resp. smaller). *)
Definition py_max (a b : Q) : Q := if Qltb a b then b else a.
Definition py_min (a b : Q) : Q := if Qltb b a then b else a.

(** [best_score * (1 - (len(candidates) - 1) * 0.1)] *)
Definition raw_confidence (best_score : Q) (num_candidates : nat) : Q :=
  (best_score * (1 - inject_Z (Z.of_nat num_candidates - 1) * (1 # 10)))%Q.

Definition make_guess (animals : list animal) (answers : gmap string Z)
  : option animal * Q :=
  let candidates := filter_candidates animals answers in
  match candidates with
  | [] => (None, 0%Q)
  | first :: _ =>
      if (length candidates =? 1)%nat then (Some first, (95 # 100)%Q)
      else
        let '(best_animal, best_score) := best_candidate candidates answers None 0%Q in
        let confidence :=
          py_min (95 # 100) (py_max (1 # 10) (raw_confidence best_score (length candidates))) in
        (best_animal, confidence)
  end.

(** ** Learning updater *)

Record game_record := GameRecord {
  date : string;
  played_animal : string;
  recorded_answers : gmap string Z;
  description : string;
  success : bool
}.

(** The fields of [self] the learning updater reads and writes. *)
Record guesser := Guesser {
  animals : list animal;
  questions : list question;
  game_history : list game_record
}.

(** [keyword in desc_lower]: substring test. *)
Fixpoint contains (keyword s : string) : bool :=
  String.prefix keyword s
  || match s with
     | EmptyString => false
     | String _ s' => contains keyword s'
     end.

(** [str.lower] on ASCII text: the letters [A]..[Z] are mapped to
    [a]..[z], every other character is kept. *)
Definition lower_ascii (c : ascii) : ascii :=
  let n := nat_of_ascii c in
  if (65 <=? n)%nat && (n <=? 90)%nat then ascii_of_nat (n + 32) else c.

Fixpoint str_lower (s : string) : string :=
  match s with
  | EmptyString => EmptyString
  | String c s' => String (lower_ascii c) (str_lower s')
  end.

Definition feature_keywords : list (string * list string) :=
  [ ("large", ["large"; "big"; "huge"; "massive"; "giant"]);
    ("small", ["small"; "tiny"; "little"; "miniature"]);
    ("aquatic", ["water"; "ocean"; "sea"; "swimming"; "aquatic"]);
    ("flies", ["fly"; "flying"; "wings"; "air"; "flight"]);
    ("domestic", ["pet"; "domestic"; "house"; "tame"]);
    ("wild", ["wild"; "jungle"; "forest"; "safari"]);
    ("carnivore", ["meat"; "carnivore"; "predator"; "hunter"]);
    ("herbivore", ["plants"; "grass"; "herbivore"; "vegetarian"]);
    ("fur", ["fur"; "furry"; "hairy"]);
    ("feathers", ["feather"; "feathered"]);
    ("scales", ["scale"; "scaled"; "scaly"]) ].

(** The inner loop of [extract_features_from_description]: the first
    keyword found in the description sets the feature and ends the loop. *)
Fixpoint scan_keywords (feats : gmap string Q) (feature : string)
    (keywords : list string) (desc_lower : string) : gmap string Q :=
  match keywords with
  | [] => feats
  | keyword :: rest =>
      if contains keyword desc_lower then <[feature := 1%Q]> feats
      else scan_keywords feats feature rest desc_lower
  end.

(** [for feature, answer in answers.items(): animal['features'][feature] = answer] *)
Definition update_features (feats : gmap string Q) (pairs : list (string * Z))
  : gmap string Q :=
  fold_left (fun fs '(feature, answer) => <[feature := inject_Z answer]> fs)
    pairs feats.

Section Learning.

(** [str.lower]; the updater only compares and scans its results, so it
    is kept abstract here and instantiated with [str_lower] on ASCII
    text. *)
Variable lower : string → string.

Definition extract_features_from_description (a : animal)
    (description : string) : animal :=
  let desc_lower := lower description in
  Animal (name a)
    (fold_left
       (fun fs '(feature, keywords) => scan_keywords fs feature keywords desc_lower)
       feature_keywords (features a)).

(** The lookup loop of [learn_from_game]: the index of the first animal
    whose lowered name equals the lowered [actual_animal]. *)
Fixpoint find_animal (l : list animal) (actual_animal : string) : option nat :=
  match l with
  | [] => None
  | a :: rest =>
      if String.eqb (lower (name a)) (lower actual_animal) then Some 0%nat
      else S <$> find_animal rest actual_animal
  end.

(** What [learn_from_game] does to the animal it found or created. *)
Definition learn (answers : gmap string Z) (description : string)
    (a : animal) : animal :=
  let a1 := Animal (name a) (update_features (features a) (items answers)) in
  match description with
  | EmptyString => a1
  | _ => extract_features_from_description a1 description
  end.

(** [now] is the value of [datetime.now().isoformat()]. *)
Definition learn_from_game (self : guesser) (now : string)
    (actual_animal : string) (answers : gmap string Z)
    (description : string) : guesser :=
  let '(i, animals1) :=
    match find_animal (animals self) actual_animal with
    | Some i => (i, animals self)
    | None => (length (animals self),
               animals self ++ [Animal actual_animal ∅])
    end in
  let animals2 := alter (learn answers description) i animals1 in
  Guesser animals2 (questions self)
    (game_history self
     ++ [GameRecord now actual_animal answers description false]).

End Learning.

(** ** Game session *)

(** [self.stats] *)
Record game_stats := GameStats {
  played : Z;
  correct : Z
}.

(** The whole of [self]: the entity store, bank and history together with
    the statistics. *)
Record session := Session {
  core : guesser;
  stats : game_stats
}.

Definition max_questions : nat := 10.

(** Whether some keyword of the table row of feature [f] occurs in the
    lowered description. *)
Definition triggered (desc_lower f : string) : bool :=
  existsb
    (fun '(feature, keywords) =>
       String.eqb feature f && existsb (fun keyword => contains keyword desc_lower) keywords)
    feature_keywords.

(** [str.strip] on ASCII text: leading and trailing white space (the
    characters 9 to 13, 28 to 32) is removed. *)
Definition is_space (c : ascii) : bool :=
  let n := nat_of_ascii c in
  ((9 <=? n)%nat && (n <=? 13)%nat) || ((28 <=? n)%nat && (n <=? 32)%nat).

Fixpoint str_lstrip (s : string) : string :=
  match s with
  | EmptyString => EmptyString
  | String c s' => if is_space c then str_lstrip s' else s
  end.

Fixpoint str_rstrip (s : string) : string :=
  match s with
  | EmptyString => EmptyString
  | String c s' =>
      match str_rstrip s' with
      | EmptyString => if is_space c then EmptyString else String c EmptyString
      | r => String c r
      end
  end.

Definition str_strip (s : string) : string := str_rstrip (str_lstrip s).

(** The state of the question loop of [play_game] is well formed for a
    question bank: the asked features are distinct features of bank
    questions, they are exactly the answered ones, and every answer is 0 or
    1. *)
Definition well_asked (bank : list question) (answers : gmap string Z)
    (asked_features : list string) : Prop :=
  NoDup asked_features
  ∧ size answers = length asked_features
  ∧ (∀ f, f ∈ asked_features ↔ is_Some (answers !! f))
  ∧ map_Forall (fun _ v => v = 0%Z ∨ v = 1%Z) answers
  ∧ Forall (fun f => f ∈ feature <$> bank) asked_features.

Section Game.

(** [math.log2], [str.lower] and [str.strip]. *)
Variable log2 : float → float.
Variable lower : string → string.
Variable strip : string → string.

(** The [while True] prompt of [play_game]: console lines are read until one
    of them is, once lowered and stripped, a yes or a no.  [inputs] holds
    the lines still to come; running out of them is the [EOFError] of
    [input], which ends the game. *)
Fixpoint read_yes_no (inputs : list string) : option (bool * list string) :=
  match inputs with
  | [] => None
  | line :: rest =>
      let response := strip (lower line) in
      if existsb (String.eqb response) ["yes"; "y"] then Some (true, rest)
      else if existsb (String.eqb response) ["no"; "n"] then Some (false, rest)
      else read_yes_no rest
  end.

(** The question loop of [play_game], over the values [question_num] still
    has to take. *)
Fixpoint ask_questions (question_nums : list nat) (self : guesser)
    (answers : gmap string Z) (asked_features : list string)
    (inputs : list string)
  : option (gmap string Z * list string * list string) :=
  match question_nums with
  | [] => Some (answers, asked_features, inputs)
  | question_num :: later =>
      let candidates := filter_candidates (animals self) answers in
      if (length candidates <=? 2)%nat || (max_questions <=? question_num)%nat
      then Some (answers, asked_features, inputs)
      else
        match get_best_question log2 (questions self) candidates asked_features with
        | None => Some (answers, asked_features, inputs)
        | Some question =>
            match read_yes_no inputs with
            | None => None
            | Some (yes, inputs') =>
                ask_questions later self
                  (<[feature question := if yes then 1%Z else 0%Z]> answers)
                  (asked_features ++ [feature question]) inputs'
            end
        end
  end.

(** [play_game]: the session after the game and the console lines left
    over, or [None] when the console ran out of lines. *)
Definition play_game (self : session) (now : string) (inputs : list string)
  : option (session * list string) :=
  match ask_questions (seq 1 max_questions) (core self) ∅ [] inputs with
  | None => None
  | Some (answers, asked_features, inputs1) =>
      let '(guess, confidence) := make_guess (animals (core self)) answers in
      let confirmation :=
        match guess with
        | Some _ => read_yes_no inputs1
        | None => Some (false, inputs1)
        end in
      match confirmation with
      | None => None
      | Some (true, inputs2) =>
          Some (Session (core self)
                  (GameStats (played (stats self) + 1) (correct (stats self) + 1)),
                inputs2)
      | Some (false, inputs2) =>
          match inputs2 with
          | line1 :: line2 :: inputs3 =>
              let actual_animal := strip line1 in
              let description := strip line2 in
              Some (Session
                      (learn_from_game lower (core self) now actual_animal
                         answers description)
                      (GameStats (played (stats self) + 1) (correct (stats self))),
                    inputs3)
          | _ => None
          end
      end
  end.

End Game.

(** ** Properties of the candidate filter *)

Lemma Qltb_lt (x y : Q) : Qltb x y = true ↔ (x < y)%Q.
Proof. unfold Qltb, Qlt. apply Z.ltb_lt. Qed.

Lemma Qltb_nlt (x y : Q) : Qltb x y = false ↔ ¬ (x < y)%Q.
Proof. rewrite <- Qltb_lt. destruct (Qltb x y); split; congruence. Qed.

Lemma matches_Forall a pairs :
  matches a pairs = true ↔ Forall (fun p => ¬ excluded a p.1 p.2) pairs.
Proof.
  induction pairs as [| [f ans] rest IH]; simpl.
  - split; [constructor | reflexivity].
  - rewrite Forall_cons. simpl. unfold excluded, value.
    destruct (Z.eqb_spec ans 1) as [-> | Hne1]; simpl.
    + destruct (Qltb (get (features a) f 0) (1 # 2)) eqn:Hlt.
      * apply Qltb_lt in Hlt. split; [discriminate | intros [Hn _]].
        exfalso. apply Hn. left. split; [reflexivity | exact Hlt].
      * apply Qltb_nlt in Hlt. rewrite IH. split.
        -- intros HF. split; [| exact HF]. intros [[_ H] | [H _]]; [tauto | discriminate].
        -- intros [_ HF]. exact HF.
    + destruct (Z.eqb_spec ans 0) as [-> | Hne0]; simpl.
      * destruct (Qltb (1 # 2) (get (features a) f 0)) eqn:Hlt.
        -- apply Qltb_lt in Hlt. split; [discriminate | intros [Hn _]].
           exfalso. apply Hn. right. split; [reflexivity | exact Hlt].
        -- apply Qltb_nlt in Hlt. rewrite IH. split.
           ++ intros HF. split; [| exact HF]. intros [[H _] | [_ H]]; [discriminate | tauto].
           ++ intros [_ HF]. exact HF.
      * rewrite IH. split.
        -- intros HF. split; [| exact HF]. intros [[H _] | [H _]]; tauto.
        -- intros [_ HF]. exact HF.
Qed.

Lemma matches_survives a answers :
  matches a (items answers) = true ↔ survives a answers.
Proof.
  rewrite matches_Forall. unfold survives, items.
  rewrite map_Forall_to_list. apply Forall_proper; [| reflexivity].
  intros [f ans]. reflexivity.
Qed.

Lemma filter_candidates_acc animals answers acc :
  fold_left
    (fun candidates a =>
       if matches a (items answers) then candidates ++ [a] else candidates)
    animals acc
  = acc ++ filter (fun a => survives a answers) animals.
Proof.
  revert acc. induction animals as [| a rest IH]; intros acc; simpl.
  - by rewrite app_nil_r.
  - rewrite IH. rewrite filter_cons.
    destruct (matches a (items answers)) eqn:Hm.
    + apply matches_survives in Hm. rewrite decide_True by exact Hm.
      by rewrite <- app_assoc.
    + rewrite decide_False; [reflexivity |].
      intros Hs. apply matches_survives in Hs. congruence.
Qed.

Lemma filter_candidates_filter animals answers :
  filter_candidates animals answers = filter (fun a => survives a answers) animals.
Proof. unfold filter_candidates. by rewrite filter_candidates_acc. Qed.

Lemma boundary_not_excluded a f answer :
  (value a f == 1 # 2)%Q → ¬ excluded a f answer.
Proof.
  intros Heq [[_ H] | [_ H]]; rewrite Heq in H; exact (Qlt_irrefl _ H).
Qed.

(** C2: [filter_candidates] keeps, in stored order, exactly the entities that
    no (feature, answer) pair excludes, where a pair excludes an entity iff
    the answer is 1 and the value is below 0.5 or the answer is 0 and the
    value is above 0.5, a missing feature counting as 0; a value of exactly
    0.5 is excluded by neither answer. *)
Theorem filter_candidates_rule (animals : list animal) (answers : gmap string Z) :
  filter_candidates animals answers = filter (fun a => survives a answers) animals
  ∧ (∀ a, a ∈ filter_candidates animals answers ↔
          a ∈ animals ∧ ∀ f answer, answers !! f = Some answer → ¬ excluded a f answer)
  ∧ (∀ a f, features a !! f = None → value a f = 0%Q)
  ∧ (∀ a f answer, (value a f == 1 # 2)%Q → ¬ excluded a f answer).
Proof.
  split; [apply filter_candidates_filter |]. split; [| split].
  - intros a. rewrite filter_candidates_filter, list_elem_of_filter.
    unfold survives, map_Forall. tauto.
  - intros a f Hnone. unfold value, get. by rewrite Hnone.
  - intros a f answer. apply boundary_not_excluded.
Qed.

Lemma survives_weaken a (answers1 answers2 : gmap string Z) :
  answers1 ⊆ answers2 → survives a answers2 → survives a answers1.
Proof.
  intros Hsub Hs f answer Hf. apply (Hs f answer).
  exact (lookup_weaken _ _ _ _ Hf Hsub).
Qed.

Lemma filter_sublist_weaken {A} (P1 P2 : A → Prop)
    `{!∀ x, Decision (P1 x)} `{!∀ x, Decision (P2 x)} (l : list A) :
  (∀ x, P2 x → P1 x) → sublist (filter P2 l) (filter P1 l).
Proof.
  intros Himp. induction l as [| x l IH]; [constructor |].
  rewrite !filter_cons. destruct (decide (P2 x)) as [H2 | H2].
  - rewrite decide_True by auto. by constructor.
  - destruct (decide (P1 x)); [by constructor | exact IH].
Qed.

(** C7: when the second AnswerSet extends the first, the candidates of the
    second are a sub-list of the candidates of the first, both are sub-lists
    of the entity set, and so there are no more of them. *)
Theorem filter_candidates_monotone (animals : list animal)
    (answers1 answers2 : gmap string Z) :
  answers1 ⊆ answers2 →
  sublist (filter_candidates animals answers2) (filter_candidates animals answers1)
  ∧ sublist (filter_candidates animals answers1) animals
  ∧ sublist (filter_candidates animals answers2) animals
  ∧ (length (filter_candidates animals answers2)
     ≤ length (filter_candidates animals answers1))%nat.
Proof.
  intros Hsub. rewrite !filter_candidates_filter.
  assert (Hs : sublist (filter (fun a => survives a answers2) animals)
                       (filter (fun a => survives a answers1) animals)).
  { apply filter_sublist_weaken. intros a. by apply survives_weaken. }
  repeat split; [exact Hs | apply sublist_filter | apply sublist_filter |].
  by apply sublist_length.
Qed.

Lemma filter_candidates_monotone_witness :
  ({["aquatic" := 1%Z]} : gmap string Z) ⊆ {["mammal" := 1%Z; "aquatic" := 1%Z]}
  ∧ (length (filter_candidates default_animals {["mammal" := 1%Z; "aquatic" := 1%Z]})
     ≤ length (filter_candidates default_animals {["aquatic" := 1%Z]}))%nat.
Proof.
  assert (H : ({["aquatic" := 1%Z]} : gmap string Z)
              ⊆ {["mammal" := 1%Z; "aquatic" := 1%Z]}).
  { apply insert_subseteq. reflexivity. }
  split; [exact H |].
  exact (proj2 (proj2 (proj2 (filter_candidates_monotone default_animals _ _ H)))).
Defined.

(** ** Properties of the guess scorer *)

Lemma filter_candidates_no_answers animals : filter_candidates animals ∅ = animals.
Proof.
  rewrite filter_candidates_filter. induction animals as [| a rest IH]; [done |].
  rewrite filter_cons, decide_True, IH; [done |].
  unfold survives. apply map_Forall_empty.
Qed.

Lemma normalized_score_no_answers a : normalized_score a ∅ = 0%Q.
Proof. reflexivity. Qed.

Lemma best_candidate_no_answers candidates :
  best_candidate candidates ∅ None 0%Q = (None, 0%Q).
Proof. induction candidates as [| a rest IH]; [done | exact IH]. Qed.

(** With no answer given every candidate scores 0, the strict comparison
    against the initial [best_score = 0] never succeeds and [best_animal]
    keeps its initial [None]. *)
Lemma make_guess_no_answers animals :
  (2 ≤ length animals)%nat → make_guess animals ∅ = (None, (1 # 10)%Q).
Proof.
  intros Hlen. unfold make_guess. rewrite filter_candidates_no_answers.
  destruct animals as [| a [| b rest]]; simpl in Hlen; [lia | lia |].
  change (length (a :: b :: rest) =? 1)%nat with false. cbv iota.
  rewrite best_candidate_no_answers. reflexivity.
Qed.

(** C1: on the seed entity set and the empty AnswerSet [make_guess] returns
    no entity at all (not the first entity, "Dog"), with confidence 0.1. *)
Theorem make_guess_no_answers_seed :
  make_guess default_animals ∅ = (None, (1 # 10)%Q)
  ∧ head default_animals
    = Some (Animal "Dog" (features_of [("mammal", 1%Q); ("domestic", 1%Q);
              ("four_legs", 1%Q); ("barks", 1%Q); ("carnivore", (1 # 2)%Q)]))
  ∧ (make_guess default_animals ∅).1 ≠ head default_animals.
Proof. split; [| split]; [vm_compute; reflexivity | reflexivity | discriminate]. Qed.

(** C5: when filtering leaves no candidate the guess is [(None, 0)]; when it
    leaves exactly one, the guess is that entity with confidence 0.95. *)
Theorem make_guess_shortcuts (animals : list animal) (answers : gmap string Z) :
  (filter_candidates animals answers = [] →
   make_guess animals answers = (None, 0%Q))
  ∧ (∀ a, filter_candidates animals answers = [a] →
          make_guess animals answers = (Some a, (95 # 100)%Q)).
Proof.
  unfold make_guess. split.
  - intros ->. reflexivity.
  - intros a ->. reflexivity.
Qed.

Lemma make_guess_shortcuts_witness :
  make_guess [] ∅ = (None, 0%Q)
  ∧ (∃ whale, name whale = "Whale" ∧
       make_guess default_animals {["mammal" := 1%Z; "aquatic" := 1%Z]}
       = (Some whale, (95 # 100)%Q)).
Proof.
  split.
  - apply (proj1 (make_guess_shortcuts [] ∅)). reflexivity.
  - eexists. split; [| apply (proj2 (make_guess_shortcuts default_animals
                                 {["mammal" := 1%Z; "aquatic" := 1%Z]}));
                       vm_compute; reflexivity].
    reflexivity.
Defined.

(** Seven seed entities are mammals; each agrees with the single answer, the
    first of them is kept and the confidence is 1 * (1 - 6 * 0.1) = 0.4. *)
Example make_guess_mammal :
  ∃ dog confidence,
    make_guess default_animals {["mammal" := 1%Z]} = (Some dog, confidence)
    ∧ name dog = "Dog" ∧ (confidence == 4 # 10)%Q.
Proof. eexists _, _. split; [vm_compute; reflexivity |]. split; reflexivity. Qed.

Lemma clamp_bounds (x : Q) :
  (1 # 10 <= py_min (95 # 100) (py_max (1 # 10) x) <= 95 # 100)%Q.
Proof.
  unfold py_min, py_max.
  destruct (Qltb (1 # 10) x) eqn:Hlo.
  - apply Qltb_lt in Hlo. destruct (Qltb x (95 # 100)) eqn:Hhi.
    + apply Qltb_lt in Hhi. split; by apply Qlt_le_weak.
    + split; [discriminate | apply Qle_refl].
  - change (Qltb (1 # 10) (95 # 100)) with true. cbv iota.
    split; [apply Qle_refl | discriminate].
Qed.

(** C6, as stated, fails where filtering leaves no candidate: no seed entity
    is both a mammal and able to fly, and the confidence returned is 0. *)
Lemma make_guess_confidence_zero :
  (make_guess default_animals {["mammal" := 1%Z; "flies" := 1%Z]}).2 = 0%Q
  ∧ ¬ (1 # 10 <= (make_guess default_animals {["mammal" := 1%Z; "flies" := 1%Z]}).2
       <= 95 # 100)%Q.
Proof.
  assert (H : make_guess default_animals {["mammal" := 1%Z; "flies" := 1%Z]}
              = (None, 0%Q)) by (vm_compute; reflexivity).
  rewrite H. split; [reflexivity |]. intros [Hlo _]. apply Hlo. reflexivity.
Qed.

(** C6, amended: whenever filtering leaves at least one candidate, the
    confidence returned by [make_guess] lies in [0.1, 0.95]; with two or more
    candidates it is the raw score
    [best_score * (1 - (num_candidates - 1) * 0.1)] clamped to that
    interval. *)
Theorem make_guess_confidence_clamped (animals : list animal)
    (answers : gmap string Z) :
  filter_candidates animals answers ≠ [] →
  (1 # 10 <= (make_guess animals answers).2 <= 95 # 100)%Q
  ∧ ((2 ≤ length (filter_candidates animals answers))%nat →
     (make_guess animals answers).2
     = py_min (95 # 100) (py_max (1 # 10)
         (raw_confidence
            (best_candidate (filter_candidates animals answers) answers None 0%Q).2
            (length (filter_candidates animals answers))))).
Proof.
  intros Hne. unfold make_guess.
  destruct (filter_candidates animals answers) as [| a [| b rest]]; [done | |].
  - simpl. split; [split; discriminate | lia].
  - change (length (a :: b :: rest) =? 1)%nat with false. cbv iota.
    destruct (best_candidate (a :: b :: rest) answers None 0%Q) as [ba bs].
    simpl fst; simpl snd. split; [apply clamp_bounds | reflexivity].
Qed.

Lemma make_guess_confidence_clamped_witness :
  filter_candidates default_animals {["mammal" := 1%Z]} ≠ []
  ∧ (1 # 10 <= (make_guess default_animals {["mammal" := 1%Z]}).2 <= 95 # 100)%Q.
Proof.
  assert (H : filter_candidates default_animals {["mammal" := 1%Z]} ≠ [])
    by (vm_compute; discriminate).
  split; [exact H |].
  exact (proj1 (make_guess_confidence_clamped default_animals _ H)).
Defined.

(** ** Properties of the learning updater *)

Lemma update_features_not_in feats pairs f :
  f ∉ pairs.*1 → update_features feats pairs !! f = feats !! f.
Proof.
  unfold update_features. revert feats.
  induction pairs as [| [f0 v0] rest IH]; intros feats Hnot; [done |].
  simpl in *. apply not_elem_of_cons in Hnot as [Hne Hnot].
  rewrite IH by exact Hnot. by rewrite lookup_insert_ne.
Qed.

Lemma update_features_in feats pairs f v :
  NoDup pairs.*1 → (f, v) ∈ pairs →
  update_features feats pairs !! f = Some (inject_Z v).
Proof.
  unfold update_features. revert feats.
  induction pairs as [| [f0 v0] rest IH]; intros feats Hnd Hin.
  - by apply elem_of_nil in Hin.
  - simpl in *. apply NoDup_cons in Hnd as [Hfresh Hnd].
    apply elem_of_cons in Hin as [Heq | Hin].
    + injection Heq as -> ->.
      pose proof (update_features_not_in (<[f0:=inject_Z v0]> feats) rest f0 Hfresh) as H.
      unfold update_features in H. rewrite H. apply lookup_insert_eq.
    + by apply IH.
Qed.

Lemma update_features_answers feats (answers : gmap string Z) f :
  update_features feats (items answers) !! f
  = match answers !! f with
    | Some v => Some (inject_Z v)
    | None => feats !! f
    end.
Proof.
  unfold items. destruct (answers !! f) as [v |] eqn:Hf.
  - apply update_features_in; [apply NoDup_fst_map_to_list |].
    by apply elem_of_map_to_list.
  - apply update_features_not_in. intros Hin.
    apply list_elem_of_fmap in Hin as [[f' v] [-> Hin]].
    apply elem_of_map_to_list in Hin. simpl in Hf. congruence.
Qed.

Lemma alter_last {A} (f : A → A) (l : list A) (x : A) :
  alter f (length l) (l ++ [x]) = l ++ [f x].
Proof. induction l as [| y l IH]; [done |]. simpl. f_equal. exact IH. Qed.

Section LearningProperties.

Variable lower : string → string.

Lemma find_animal_None l n :
  find_animal lower l n = None ↔ Forall (fun a => lower (name a) ≠ lower n) l.
Proof.
  induction l as [| a rest IH]; simpl.
  - split; [constructor | done].
  - rewrite Forall_cons. destruct (String.eqb_spec (lower (name a)) (lower n)) as [He | Hne].
    + split; [discriminate | intros [H _]; done].
    + rewrite fmap_None, IH. tauto.
Qed.

Lemma find_animal_Some l n i :
  find_animal lower l n = Some i →
  ∃ a, l !! i = Some a ∧ lower (name a) = lower n
       ∧ ∀ j b, (j < i)%nat → l !! j = Some b → lower (name b) ≠ lower n.
Proof.
  revert i. induction l as [| a rest IH]; intros i; simpl; [discriminate |].
  destruct (String.eqb_spec (lower (name a)) (lower n)) as [He | Hne].
  - intros [= <-]. exists a. repeat split; [exact He |]. intros j b Hj. lia.
  - intros Hi. apply fmap_Some in Hi as [i' [Hi' ->]].
    destruct (IH i' Hi') as (a' & Hl & Hn & Hfirst).
    exists a'. repeat split; [exact Hl | exact Hn |].
    intros [| j] b Hj Hb; simpl in Hb.
    + by injection Hb as <-.
    + apply (Hfirst j b); [lia | exact Hb].
Qed.

Lemma learn_name answers description a :
  name (learn lower answers description a) = name a.
Proof. unfold learn. by destruct description. Qed.

Lemma learn_from_game_animals self now n answers description :
  animals (learn_from_game lower self now n answers description)
  = match find_animal lower (animals self) n with
    | Some i => alter (learn lower answers description) i (animals self)
    | None => animals self ++ [learn lower answers description (Animal n ∅)]
    end.
Proof.
  unfold learn_from_game. destruct (find_animal lower (animals self) n); [done |].
  simpl. apply alter_last.
Qed.

(** C8: [learn_from_game] removes no entity and changes none but the one
    matching the given name case-insensitively: every entity stays at its
    index under its name, and is left as it was unless it matches; if no
    entity matches, one entity with the given name is appended and the
    count grows by one; if some entity matches, the first match is
    replaced in place and the count is unchanged. *)
Theorem learn_from_game_frame (self : guesser) (now n : string)
    (answers : gmap string Z) (description : string) :
  let self' := learn_from_game lower self now n answers description in
  (∀ j a, animals self !! j = Some a →
     ∃ a', animals self' !! j = Some a' ∧ name a' = name a
           ∧ (lower (name a) ≠ lower n → a' = a))
  ∧ (Forall (fun a => lower (name a) ≠ lower n) (animals self) →
     (∃ e, animals self' = animals self ++ [e] ∧ name e = n)
     ∧ length (animals self') = S (length (animals self)))
  ∧ ((∃ a, a ∈ animals self ∧ lower (name a) = lower n) →
     (∃ i a a', animals self !! i = Some a ∧ lower (name a) = lower n
                ∧ (∀ j b, (j < i)%nat → animals self !! j = Some b →
                          lower (name b) ≠ lower n)
                ∧ name a' = name a
                ∧ animals self' = <[i := a']> (animals self))
     ∧ length (animals self') = length (animals self)).
Proof.
  intros self'. subst self'. rewrite learn_from_game_animals.
  destruct (find_animal lower (animals self) n) as [i |] eqn:Hfind.
  - destruct (find_animal_Some _ _ _ Hfind) as (a0 & Hi & Hn & Hfirst).
    split; [| split].
    + intros j a Hj. destruct (decide (i = j)) as [<- | Hne].
      * rewrite list_lookup_alter_eq, Hi. simpl. rewrite Hi in Hj. injection Hj as <-.
        eexists. split; [reflexivity |]. split; [apply learn_name | done].
      * rewrite list_lookup_alter_ne by exact Hne. exists a. done.
    + intros Hall. apply find_animal_None in Hall. congruence.
    + intros _. split; [| apply length_alter].
      exists i, a0, (learn lower answers description a0).
      repeat split; [exact Hi | exact Hn | exact Hfirst | apply learn_name |].
      apply list_eq. intros j. destruct (decide (i = j)) as [<- | Hne].
      * rewrite list_lookup_alter_eq, Hi. simpl.
        rewrite list_lookup_insert_eq; [done |]. by eapply lookup_lt_Some.
      * by rewrite list_lookup_alter_ne, list_lookup_insert_ne.
  - pose proof (proj1 (find_animal_None _ _) Hfind) as Hall.
    split; [| split].
    + intros j a Hj. exists a. rewrite lookup_app_l by (by eapply lookup_lt_Some). done.
    + intros _. split.
      * eexists. split; [reflexivity | apply learn_name].
      * rewrite length_app. simpl. lia.
    + intros (a & Hin & Hn). rewrite Forall_forall in Hall.
      exfalso. by apply (Hall a Hin).
Qed.

Lemma learn_survives (answers : gmap string Z) a :
  map_Forall (fun _ v => v = 0%Z ∨ v = 1%Z) answers →
  survives (learn lower answers "" a) answers.
Proof.
  intros H01 f v Hf. unfold excluded, value, get, learn. simpl.
  rewrite update_features_answers, Hf. simpl.
  destruct (H01 f v Hf) as [-> | ->];
    intros [[Hv Hlt] | [Hv Hlt]]; try discriminate Hv;
    revert Hlt; by vm_compute.
Qed.

(** C10: after [learn_from_game(name, answers, "")] with answers that are
    all 0 or 1, [filter_candidates(answers)] contains the learned entity,
    the one whose name matches [name] case-insensitively (it bears [name]
    itself when it was created by the call). *)
Theorem learn_then_filter (self : guesser) (now n : string)
    (answers : gmap string Z) :
  map_Forall (fun _ v => v = 0%Z ∨ v = 1%Z) answers →
  ∃ e, e ∈ filter_candidates
             (animals (learn_from_game lower self now n answers "")) answers
       ∧ lower (name e) = lower n
       ∧ (Forall (fun a => lower (name a) ≠ lower n) (animals self) → name e = n).
Proof.
  intros H01. rewrite learn_from_game_animals.
  destruct (find_animal lower (animals self) n) as [i |] eqn:Hfind.
  - destruct (find_animal_Some _ _ _ Hfind) as (a0 & Hi & Hn & _).
    exists (learn lower answers "" a0). split; [| split].
    + rewrite filter_candidates_filter. apply list_elem_of_filter.
      split; [by apply learn_survives |].
      apply list_elem_of_lookup. exists i.
      by rewrite list_lookup_alter_eq, Hi.
    + by rewrite learn_name.
    + intros Hall. apply find_animal_None in Hall. congruence.
  - exists (learn lower answers "" (Animal n ∅)). split; [| split].
    + rewrite filter_candidates_filter. apply list_elem_of_filter.
      split; [by apply learn_survives |].
      apply elem_of_app. right. by apply list_elem_of_singleton.
    + by rewrite learn_name.
    + intros _. by rewrite learn_name.
Qed.

End LearningProperties.

Lemma learn_from_game_frame_witness :
  let self := Guesser default_animals default_questions [] in
  (Forall (fun a => str_lower (name a) ≠ str_lower "Zebra") (animals self)
   ∧ length (animals (learn_from_game str_lower self "2024-01-01T00:00:00"
                        "Zebra" {["mammal" := 1%Z]} ""))
     = S (length (animals self)))
  ∧ ((∃ a, a ∈ animals self ∧ str_lower (name a) = str_lower "dog")
     ∧ length (animals (learn_from_game str_lower self "2024-01-01T00:00:00"
                          "dog" {["barks" := 1%Z]} ""))
       = length (animals self)).
Proof.
  intros self.
  assert (Hnone : Forall (fun a => str_lower (name a) ≠ str_lower "Zebra")
                    (animals self)).
  { apply find_animal_None. vm_compute. reflexivity. }
  assert (Hsome : ∃ a, a ∈ animals self ∧ str_lower (name a) = str_lower "dog").
  { eexists. split; [apply list_elem_of_here | reflexivity]. }
  split; (split; [assumption |]).
  - exact (proj2 (proj1 (proj2 (learn_from_game_frame str_lower self _ "Zebra"
                                  {["mammal" := 1%Z]} "")) Hnone)).
  - exact (proj2 (proj2 (proj2 (learn_from_game_frame str_lower self _ "dog"
                                  {["barks" := 1%Z]} "")) Hsome)).
Defined.

Lemma learn_then_filter_witness :
  map_Forall (fun _ v => v = 0%Z ∨ v = 1%Z)
    ({["mammal" := 1%Z; "aquatic" := 0%Z]} : gmap string Z)
  ∧ ∃ e, e ∈ filter_candidates
               (animals (learn_from_game str_lower
                           (Guesser default_animals default_questions [])
                           "2024-01-01T00:00:00" "Zebra"
                           {["mammal" := 1%Z; "aquatic" := 0%Z]} ""))
               {["mammal" := 1%Z; "aquatic" := 0%Z]}
         ∧ name e = "Zebra".
Proof.
  assert (H01 : map_Forall (fun _ v => v = 0%Z ∨ v = 1%Z)
                  ({["mammal" := 1%Z; "aquatic" := 0%Z]} : gmap string Z)).
  { apply map_Forall_insert_2; [by right |].
    apply map_Forall_singleton. by left. }
  split; [exact H01 |].
  destruct (learn_then_filter str_lower
              (Guesser default_animals default_questions [])
              "2024-01-01T00:00:00" "Zebra" _ H01) as (e & Hin & _ & Hname).
  exists e. split; [exact Hin |]. apply Hname.
  apply find_animal_None. vm_compute. reflexivity.
Defined.

Lemma extract_ocean_huge_features (lower : string → string) (a : animal) (d : string) :
  lower d = "it lives in the ocean and is huge" →
  extract_features_from_description lower a d
  = Animal (name a) (<["aquatic" := 1%Q]> (<["large" := 1%Q]> (features a))).
Proof. unfold extract_features_from_description. intros ->. reflexivity. Qed.

(** C9: extraction with the description "It lives in the ocean and is huge"
    sets [aquatic] and [large] to 1 on any entity, through the keywords
    "ocean" and "huge" found in the lowered description (the same text in
    capitals does the same), leaves every other feature as it was, and so
    removes none. *)
Theorem extract_ocean_huge (a : animal) :
  let a' := extract_features_from_description str_lower a
              "It lives in the ocean and is huge" in
  features a' !! "aquatic" = Some 1%Q
  ∧ features a' !! "large" = Some 1%Q
  ∧ (∀ f, f ≠ "aquatic" → f ≠ "large" → features a' !! f = features a !! f)
  ∧ (∀ f, is_Some (features a !! f) → is_Some (features a' !! f))
  ∧ name a' = name a
  ∧ contains "ocean" (str_lower "It lives in the ocean and is huge") = true
  ∧ contains "huge" (str_lower "It lives in the ocean and is huge") = true
  ∧ extract_features_from_description str_lower a
      "IT LIVES IN THE OCEAN AND IS HUGE" = a'.
Proof.
  intros a'. subst a'.
  rewrite !(extract_ocean_huge_features str_lower a) by reflexivity. simpl.
  split; [apply lookup_insert_eq |].
  split; [rewrite lookup_insert_ne by done; apply lookup_insert_eq |].
  split; [intros f H1 H2; by rewrite !lookup_insert_ne |].
  split; [| done].
  intros f Hf. destruct (decide (f = "aquatic")) as [-> | H1].
  - rewrite lookup_insert_eq. by eexists.
  - destruct (decide (f = "large")) as [-> | H2].
    + rewrite lookup_insert_ne, lookup_insert_eq by done. by eexists.
    + by rewrite !lookup_insert_ne.
Qed.

(** ** Properties of the question selector *)

Lemma yes_count_filter candidates f :
  yes_count candidates f
  = length (filter (fun a => (1 # 2 < value a f)%Q) candidates).
Proof.
  induction candidates as [| a rest IH]; [done |].
  simpl. rewrite filter_cons. unfold value at 1.
  destruct (Qltb (1 # 2) (get (features a) f 0)) eqn:Hlt.
  - apply Qltb_lt in Hlt. rewrite decide_True by exact Hlt. simpl. by rewrite IH.
  - apply Qltb_nlt in Hlt. by rewrite decide_False.
Qed.

Lemma yes_count_le candidates f : (yes_count candidates f ≤ length candidates)%nat.
Proof. rewrite yes_count_filter. apply length_filter. Qed.

Lemma available_questions_unused questions asked :
  available_questions questions asked = unused_questions questions asked.
Proof.
  unfold available_questions, unused_questions.
  induction questions as [| q rest IH]; [done |].
  simpl. rewrite filter_cons, IH.
  destruct (existsb (String.eqb (feature q)) asked) eqn:Hex; simpl.
  - apply existsb_exists in Hex as (x & Hin & Heq).
    apply String.eqb_eq in Heq as <-. apply list_elem_of_In in Hin.
    by rewrite decide_False by (intros Hn; by apply Hn).
  - rewrite decide_True; [done |]. intros Hin. apply list_elem_of_In in Hin.
    assert (existsb (String.eqb (feature q)) asked = true); [| congruence].
    apply existsb_exists. exists (feature q). split; [exact Hin | apply String.eqb_refl].
Qed.

(** Order facts on IEEE numbers, read off their specification
    ([SFcompare]): the strict order is transitive, and a number that is not
    above a threshold (smaller, equal, or not a number) is not at or above
    anything that is. *)
Ltac sf_compare :=
  unfold SFltb, SFleb, SFeqb, SFcompare;
  repeat match goal with
         | s : bool |- _ => destruct s
         end;
  repeat match goal with
         | |- context [Z.compare ?a ?b] => destruct (Z.compare_spec a b)
         | |- context [Pos.compare_cont Eq ?a ?b] =>
             change (Pos.compare_cont Eq a b) with (Pos.compare a b);
             destruct (Pos.compare_spec a b)
         end;
  simpl; intros; subst; try discriminate; try reflexivity; try lia.

Lemma SFltb_trans x y z :
  SFltb x y = true → SFltb y z = true → SFltb x z = true.
Proof. destruct x, y, z; sf_compare. Qed.

Lemma SFltb_not_leb x y : SFltb x y = true → SFleb y x = false.
Proof. destruct x, y; sf_compare. Qed.

Lemma SFltb_false_leb m g r :
  SFltb m g = false → SFltb m r = true → SFleb r g = false.
Proof. destruct m, g, r; sf_compare. Qed.

Lemma float_ltb_trans (x y z : float) :
  (x <? y)%float = true → (y <? z)%float = true → (x <? z)%float = true.
Proof. rewrite !FloatAxioms.ltb_spec. apply SFltb_trans. Qed.

Lemma float_ltb_not_leb (x y : float) :
  (x <? y)%float = true → (y <=? x)%float = false.
Proof. rewrite FloatAxioms.ltb_spec, FloatAxioms.leb_spec. apply SFltb_not_leb. Qed.

Lemma float_ltb_false_leb (m g r : float) :
  (m <? g)%float = false → (m <? r)%float = true → (r <=? g)%float = false.
Proof. rewrite !FloatAxioms.ltb_spec, FloatAxioms.leb_spec. apply SFltb_false_leb. Qed.

Lemma Prim2SF_zero : Prim2SF 0%float = S754_zero false.
Proof. reflexivity. Qed.

(** [0 * w] is a zero or not a number: it is never above 0. *)
Lemma float_zero_mul_not_pos (w : float) : (0 <? 0 * w)%float = false.
Proof.
  rewrite FloatAxioms.ltb_spec, FloatAxioms.mul_spec, Prim2SF_zero.
  destruct (Prim2SF w) as [sw | sw | | sw mw ew]; reflexivity.
Qed.

Lemma float_nonneg_zero (g : float) :
  (0 <=? g)%float = true →
  (0 <? g)%float = false ↔ (g =? 0)%float = true.
Proof.
  rewrite FloatAxioms.leb_spec, FloatAxioms.ltb_spec, FloatAxioms.eqb_spec, Prim2SF_zero.
  destruct (Prim2SF g) as [sg | sg | | sg mg eg]; sf_compare; split; congruence.
Qed.

Section SelectorProperties.

Variable log2 : float → float.

Lemma calculate_entropy_split_entropy candidates f :
  calculate_entropy log2 candidates f = split_entropy log2 candidates f.
Proof.
  unfold calculate_entropy, split_entropy, shannon. rewrite <- yes_count_filter.
  destruct (length candidates <=? 1)%nat eqn:Hn.
  { apply Nat.leb_le in Hn. rewrite decide_True; [done | by left]. }
  destruct (yes_count candidates f =? 0)%nat eqn:H0.
  { apply Nat.eqb_eq in H0. rewrite decide_True; [done | right; by left]. }
  destruct (yes_count candidates f =? length candidates)%nat eqn:Ht.
  { apply Nat.eqb_eq in Ht. rewrite decide_True; [done | right; by right]. }
  apply Nat.leb_gt in Hn. apply Nat.eqb_neq in H0, Ht.
  rewrite decide_False; [done |]. intros [Hl | [Hz | Ho]]; [lia | done | done].
Qed.

Lemma calculate_entropy_guard candidates f :
  (length candidates ≤ 1)%nat
  ∨ yes_count candidates f = 0%nat
  ∨ yes_count candidates f = length candidates →
  calculate_entropy log2 candidates f = 0%float.
Proof.
  intros Hguard. unfold calculate_entropy.
  destruct (length candidates <=? 1)%nat eqn:Hn; [done |].
  destruct (yes_count candidates f =? 0)%nat eqn:H0; [done |].
  destruct (yes_count candidates f =? length candidates)%nat eqn:Ht; [done |].
  apply Nat.leb_gt in Hn. apply Nat.eqb_neq in H0, Ht.
  destruct Hguard as [Hl | [Hz | Ho]]; [lia | done | done].
Qed.

Lemma best_question_loop_spec (candidates : list animal)
    (available : list question) (best_question : option question)
    (max_gain : float) :
  (best_question_loop log2 candidates available best_question max_gain
   = best_question
   ∧ Forall (fun q => (max_gain <? weighted_gain log2 candidates q)%float = false)
       available)
  ∨ (∃ pre q post,
       available = pre ++ q :: post
       ∧ best_question_loop log2 candidates available best_question max_gain
         = Some q
       ∧ (max_gain <? weighted_gain log2 candidates q)%float = true
       ∧ Forall (fun q' => (weighted_gain log2 candidates q
                            <=? weighted_gain log2 candidates q')%float = false) pre
       ∧ Forall (fun q' => (weighted_gain log2 candidates q
                            <? weighted_gain log2 candidates q')%float = false) post).
Proof.
  revert best_question max_gain.
  induction available as [| q rest IH]; intros best_question max_gain.
  - left. split; [reflexivity | constructor].
  - cbn [best_question_loop]. rewrite calculate_entropy_split_entropy.
    fold (weighted_gain log2 candidates q).
    destruct (max_gain <? weighted_gain log2 candidates q)%float eqn:Hlt.
    + right. destruct (IH (Some q) (weighted_gain log2 candidates q))
        as [[Heq Hall] | (pre & r & post & -> & Heq & Hgt & Hpre & Hpost)].
      * exists [], q, rest.
        repeat split; [exact Heq | exact Hlt | constructor | exact Hall].
      * exists (q :: pre), r, post.
        repeat split; [exact Heq | by eapply float_ltb_trans | | exact Hpost].
        constructor; [by apply float_ltb_not_leb | exact Hpre].
    + destruct (IH best_question max_gain)
        as [[Heq Hall] | (pre & r & post & -> & Heq & Hgt & Hpre & Hpost)].
      * left. split; [exact Heq |]. constructor; [exact Hlt | exact Hall].
      * right. exists (q :: pre), r, post.
        repeat split; [exact Heq | exact Hgt | | exact Hpost].
        constructor; [by eapply float_ltb_false_leb | exact Hpre].
Qed.

(** C3, amended: [get_best_question] returns none exactly when no unused
    question exists or no unused question has a weighted gain
    [entropy(candidates, feature) * weight] above 0, which for gains that
    are not negative means that every gain is 0; otherwise it returns the
    first unused question, in bank order, whose weighted gain is the
    greatest: that gain is above 0, no question before it has a gain at or
    above it, and no question after it a gain above it.  The gains are
    floats and are compared as the code compares them. *)
Theorem get_best_question_spec (questions : list question)
    (candidates : list animal) (asked_features : list string) :
  let unused := unused_questions questions asked_features in
  let gain := weighted_gain log2 candidates in
  (get_best_question log2 questions candidates asked_features = None
   ↔ unused = [] ∨ Forall (fun q => (0 <? gain q)%float = false) unused)
  ∧ (Forall (fun q => (0 <=? gain q)%float = true) unused →
     (Forall (fun q => (0 <? gain q)%float = false) unused
      ↔ Forall (fun q => (gain q =? 0)%float = true) unused))
  ∧ (¬ (unused = [] ∨ Forall (fun q => (0 <? gain q)%float = false) unused) →
     ∃ pre q post,
       unused = pre ++ q :: post
       ∧ get_best_question log2 questions candidates asked_features = Some q
       ∧ (0 <? gain q)%float = true
       ∧ Forall (fun q' => (gain q <=? gain q')%float = false) pre
       ∧ Forall (fun q' => (gain q <? gain q')%float = false) post).
Proof.
  intros unused gain. subst unused gain. split; [| split].
  - unfold get_best_question. rewrite available_questions_unused.
    destruct (unused_questions questions asked_features) as [| q0 rest];
      [split; [by left | done] |].
    destruct (best_question_loop_spec candidates (q0 :: rest) None 0%float)
      as [[Heq Hall] | (pre & r & post & Hsplit & Heq & Hgt & _)]; rewrite Heq.
    + split; [by right | done].
    + split; [discriminate |]. intros [Hnil | Hzero]; [discriminate |].
      rewrite Hsplit in Hzero. apply Forall_app in Hzero as [_ Hzero].
      apply Forall_cons in Hzero as [Hzero _]. congruence.
  - intros Hnn. rewrite !Forall_forall. rewrite Forall_forall in Hnn.
    split; intros H q Hq; apply (float_nonneg_zero _ (Hnn q Hq)), H, Hq.
  - intros Hno. unfold get_best_question. rewrite available_questions_unused.
    destruct (unused_questions questions asked_features) as [| q0 rest];
      [exfalso; apply Hno; by left |].
    destruct (best_question_loop_spec candidates (q0 :: rest) None 0%float)
      as [[_ Hall] | (pre & r & post & Hsplit & Heq & Hgt & Hpre & Hpost)].
    + exfalso. apply Hno. by right.
    + exists pre, r, post. done.
Qed.

End SelectorProperties.

(** Two candidates split evenly by both questions: the entropy is 1, the
    gains tie at 0.8 and the question that comes first in the bank is
    selected. *)
Example get_best_question_tie :
  let dog := Animal "Dog" (features_of [("mammal", 1%Q)]) in
  let fish := Animal "Fish" (features_of [("aquatic", 1%Q)]) in
  let q1 := Question "Is it a mammal?" "mammal" 0.8 in
  let q2 := Question "Does it live in water?" "aquatic" 0.8 in
  get_best_question log2_exact [q1; q2] [dog; fish] [] = Some q1
  ∧ get_best_question log2_exact [q1; q2] [dog; fish] ["mammal"] = Some q2
  ∧ get_best_question log2_exact [q1; q2] [dog; fish] ["mammal"; "aquatic"] = None
  ∧ get_best_question log2_exact [q1; q2] [dog] [] = None
  ∧ calculate_entropy log2_exact [dog; fish] "mammal" = 1%float
  ∧ weighted_gain log2_exact [dog; fish] q1 = 0.8%float.
Proof. repeat split; vm_compute; reflexivity. Qed.

(** The gains are compared as doubles.  Among the seven seed mammals one
    lives in water and six have four legs; for a [log2] that takes at the
    four ratios the values the C library returns there, the entropy of the
    1/7 split is 0.5916727785823273 and that of the 6/7 split is
    0.5916727785823275, so with equal weights the second question of the
    bank has the strictly greater gain and is selected. *)
Example get_best_question_rounding (log2 : float → float) :
  log2 0x1.2492492492492p-3%float = (-0x1.675767f54042dp+1)%float →
  log2 0x1.b6db6db6db6dcp-1%float = (-0x1.c775ad8425786p-3)%float →
  log2 0x1.b6db6db6db6dbp-1%float = (-0x1.c775ad842578dp-3)%float →
  log2 0x1.2492492492494p-3%float = (-0x1.675767f54042cp+1)%float →
  let mammals := filter_candidates default_animals {["mammal" := 1%Z]} in
  let aquatic := Question "Does it live in water?" "aquatic" 0.8 in
  let four_legs := Question "Does it have four legs?" "four_legs" 0.8 in
  calculate_entropy log2 mammals "aquatic" = 0.5916727785823273%float
  ∧ calculate_entropy log2 mammals "four_legs" = 0.5916727785823275%float
  ∧ get_best_question log2 [aquatic; four_legs] mammals [] = Some four_legs.
Proof.
  intros H1 H2 H3 H4 mammals aquatic four_legs.
  vm_compute in H1, H2, H3, H4.
  assert (Ha : calculate_entropy log2 mammals "aquatic" = 0.5916727785823273%float).
  { vm_compute. rewrite H1, H2. vm_compute. reflexivity. }
  assert (Hf : calculate_entropy log2 mammals "four_legs" = 0.5916727785823275%float).
  { vm_compute. rewrite H3, H4. vm_compute. reflexivity. }
  split; [exact Ha |]. split; [exact Hf |].
  unfold get_best_question.
  change (available_questions [aquatic; four_legs] []) with [aquatic; four_legs].
  cbn [best_question_loop feature weight aquatic four_legs].
  rewrite Ha, Hf. vm_compute. reflexivity.
Qed.

(** In doubles the entropy of an uneven split can be 1: with 30466202 of
    60932405 candidates above 0.5, and the values the C library returns for
    [log2] at the two ratios, the formula evaluates to exactly 1.0. *)
Example shannon_one_off_half (log2 : float → float) :
  log2 0x1.ffffff7306727p-2%float = (-0x1.00000065b11c2p+0)%float →
  log2 0x1.000000467cc6cp-1%float = (-0x1.ffffff349dc82p-1)%float →
  let p := (PrimFloat.of_uint63 30466202 / PrimFloat.of_uint63 60932405)%float in
  (p =? 0.5)%float = false ∧ shannon log2 p = 1%float.
Proof.
  intros H1 H2 p. vm_compute in H1, H2. split; [vm_compute; reflexivity |].
  unfold shannon.
  replace p with 0x1.ffffff7306727p-2%float by (vm_compute; reflexivity).
  replace (1 - 0x1.ffffff7306727p-2)%float with 0x1.000000467cc6cp-1%float
    by (vm_compute; reflexivity).
  rewrite H1, H2. vm_compute. reflexivity.
Qed.

Lemma get_best_question_spec_witness :
  let dog := Animal "Dog" (features_of [("mammal", 1%Q)]) in
  let fish := Animal "Fish" (features_of [("aquatic", 1%Q)]) in
  let q1 := Question "Is it a mammal?" "mammal" 0.8 in
  let q2 := Question "Does it live in water?" "aquatic" 0.8 in
  let gain := weighted_gain log2_exact [dog; fish] in
  Forall (fun q => (0 <=? gain q)%float = true) (unused_questions [q1; q2] [])
  ∧ ¬ (unused_questions [q1; q2] [] = []
       ∨ Forall (fun q => (0 <? gain q)%float = false) (unused_questions [q1; q2] []))
  ∧ ∃ pre q post,
      unused_questions [q1; q2] [] = pre ++ q :: post
      ∧ get_best_question log2_exact [q1; q2] [dog; fish] [] = Some q
      ∧ (0 <? gain q)%float = true.
Proof.
  intros dog fish q1 q2 gain.
  assert (Hnn : Forall (fun q => (0 <=? gain q)%float = true)
                  (unused_questions [q1; q2] [])).
  { change (unused_questions [q1; q2] []) with [q1; q2].
    repeat constructor; vm_compute; reflexivity. }
  assert (Hno : ¬ (unused_questions [q1; q2] [] = []
                   ∨ Forall (fun q => (0 <? gain q)%float = false)
                       (unused_questions [q1; q2] []))).
  { change (unused_questions [q1; q2] []) with [q1; q2].
    intros [Hnil | Hall]; [discriminate |].
    apply Forall_cons in Hall as [H1 _]. vm_compute in H1. discriminate. }
  split; [exact Hnn |]. split; [exact Hno |].
  destruct (get_best_question_spec log2_exact [q1; q2] [dog; fish] [])
    as (_ & _ & Hbest).
  destruct (Hbest Hno) as (pre & q & post & Hsplit & Hq & Hpos & _).
  by exists pre, q, post.
Defined.

(** C3, as stated, fails for a weight below 0: the only question splits
    the two candidates evenly, its weighted gain is -1, which is not 0, and
    yet no question is returned. *)
Lemma get_best_question_negative_weight :
  let dog := Animal "Dog" (features_of [("mammal", 1%Q)]) in
  let fish := Animal "Fish" (features_of [("aquatic", 1%Q)]) in
  let q := Question "Is it a mammal?" "mammal" (-1) in
  let gain := weighted_gain log2_exact [dog; fish] in
  get_best_question log2_exact [q] [dog; fish] [] = None
  ∧ unused_questions [q] [] = [q]
  ∧ gain q = (-1)%float
  ∧ ¬ (get_best_question log2_exact [q] [dog; fish] [] = None
       ↔ unused_questions [q] [] = []
         ∨ Forall (fun q' => (gain q' =? 0)%float = true) (unused_questions [q] [])).
Proof.
  intros dog fish q gain.
  assert (Hnone : get_best_question log2_exact [q] [dog; fish] [] = None)
    by (vm_compute; reflexivity).
  assert (Hun : unused_questions [q] [] = [q]) by reflexivity.
  split; [exact Hnone |]. split; [exact Hun |].
  split; [vm_compute; reflexivity |].
  intros [Hif _]. destruct (Hif Hnone) as [Hnil | Hall].
  - rewrite Hun in Hnil. discriminate.
  - rewrite Hun in Hall. apply Forall_cons in Hall as [H0 _].
    vm_compute in H0. discriminate.
Qed.

Lemma filter_candidates_rule_witness :
  let dog := Animal "Dog" (features_of [("mammal", 1%Q); ("domestic", 1%Q);
               ("four_legs", 1%Q); ("barks", 1%Q); ("carnivore", (1 # 2)%Q)]) in
  (value dog "carnivore" == 1 # 2)%Q
  ∧ dog ∈ filter_candidates default_animals {["carnivore" := 1%Z]}
  ∧ dog ∈ filter_candidates default_animals {["carnivore" := 0%Z]}.
Proof.
  intros dog.
  assert (Hhalf : (value dog "carnivore" == 1 # 2)%Q) by reflexivity.
  assert (Hin : dog ∈ default_animals) by apply list_elem_of_here.
  split; [exact Hhalf |]. split.
  - destruct (filter_candidates_rule default_animals {["carnivore" := 1%Z]})
      as (_ & Hmem & _ & Hboundary).
    apply Hmem. split; [exact Hin |]. intros f answer Hf.
    apply lookup_singleton_Some in Hf as [<- <-]. by apply Hboundary.
  - destruct (filter_candidates_rule default_animals {["carnivore" := 0%Z]})
      as (_ & Hmem & _ & Hboundary).
    apply Hmem. split; [exact Hin |]. intros f answer Hf.
    apply lookup_singleton_Some in Hf as [<- <-]. by apply Hboundary.
Defined.

Lemma extract_ocean_huge_witness :
  let orca := Animal "Orca" {["mammal" := 1%Q; "large" := 0%Q]} in
  let orca' := extract_features_from_description str_lower orca
                 "It lives in the ocean and is huge" in
  features orca' !! "aquatic" = Some 1%Q
  ∧ features orca' !! "large" = Some 1%Q
  ∧ features orca' !! "mammal" = Some 1%Q.
Proof.
  intros orca orca'.
  destruct (extract_ocean_huge orca) as (Haq & Hlarge & Hother & _).
  split; [exact Haq |]. split; [exact Hlarge |].
  unfold orca'. rewrite (Hother "mammal"); [reflexivity | discriminate | discriminate].
Defined.

(** ** Further properties of the candidate filter *)

(** X1: with no answers the filter returns the entity set as it is, and on
    an empty entity set it returns nothing, whatever the answers. *)
Theorem filter_candidates_edges (animals : list animal) (answers : gmap string Z) :
  filter_candidates animals ∅ = animals ∧ filter_candidates [] answers = [].
Proof. split; [apply filter_candidates_no_answers | reflexivity]. Qed.

Lemma survives_union a (answers1 answers2 : gmap string Z) :
  answers1 ##ₘ answers2 →
  survives a (answers1 ∪ answers2) ↔ survives a answers1 ∧ survives a answers2.
Proof. intros Hdisj. unfold survives. by apply map_Forall_union. Qed.

Lemma filter_candidates_union animals (answers1 answers2 : gmap string Z) :
  answers1 ##ₘ answers2 →
  filter_candidates (filter_candidates animals answers1) answers2
  = filter_candidates animals (answers1 ∪ answers2).
Proof.
  intros Hdisj. rewrite !filter_candidates_filter, list_filter_filter.
  apply list_filter_iff. intros a. rewrite survives_union by exact Hdisj. tauto.
Qed.

(** X2: filtering the candidates of one AnswerSet by a second AnswerSet on
    other features gives the candidates of the two AnswerSets together;
    in particular one more answer on a fresh feature filters the current
    candidates. *)
Theorem filter_candidates_compose (animals : list animal)
    (answers1 answers2 : gmap string Z) :
  answers1 ##ₘ answers2 →
  filter_candidates (filter_candidates animals answers1) answers2
  = filter_candidates animals (answers1 ∪ answers2)
  ∧ (∀ f v, answers1 !! f = None →
       filter_candidates animals (<[f := v]> answers1)
       = filter_candidates (filter_candidates animals answers1) {[f := v]}).
Proof.
  intros Hdisj. split; [by apply filter_candidates_union |].
  intros f v Hfresh. rewrite filter_candidates_union.
  - by rewrite insert_union_singleton_r.
  - by apply map_disjoint_singleton_r_2.
Qed.

Lemma filter_candidates_compose_witness :
  ({["mammal" := 1%Z]} : gmap string Z) ##ₘ {["aquatic" := 1%Z]}
  ∧ filter_candidates (filter_candidates default_animals {["mammal" := 1%Z]})
      {["aquatic" := 1%Z]}
    = filter_candidates default_animals ({["mammal" := 1%Z]} ∪ {["aquatic" := 1%Z]}).
Proof.
  assert (H : ({["mammal" := 1%Z]} : gmap string Z) ##ₘ {["aquatic" := 1%Z]}).
  { apply map_disjoint_singleton_r_2. reflexivity. }
  split; [exact H |].
  exact (proj1 (filter_candidates_compose default_animals _ _ H)).
Defined.

(** ** Further properties of the guess scorer *)

Lemma count_matches_bounds a pairs score :
  (score ≤ count_matches a pairs score ≤ score + Z.of_nat (length pairs))%Z.
Proof.
  revert score. induction pairs as [| [f v] rest IH]; intros score; simpl.
  - lia.
  - destruct ((v =? 1)%Z && Qltb (1 # 2) (get (features a) f 0)
              || (v =? 0)%Z && Qltb (get (features a) f 0) (1 # 2)).
    + specialize (IH (score + 1)%Z). lia.
    + specialize (IH score). lia.
Qed.

Lemma normalized_score_bounds a (answers : gmap string Z) :
  (0 <= normalized_score a answers <= 1)%Q.
Proof.
  unfold normalized_score.
  pose proof (count_matches_bounds a (items answers) 0) as Hb.
  replace (length (items answers)) with (size answers) in Hb
    by (unfold items; by rewrite length_map_to_list).
  destruct (0 <? Z.of_nat (size answers))%Z eqn:Hpos; [| split; discriminate].
  apply Z.ltb_lt in Hpos.
  assert (Htot : (0 < inject_Z (Z.of_nat (size answers)))%Q)
    by (rewrite <- (Zlt_Qlt 0); exact Hpos).
  split.
  - apply Qle_shift_div_l; [exact Htot |]. rewrite Qmult_0_l.
    rewrite <- (Zle_Qle 0). lia.
  - apply Qle_shift_div_r; [exact Htot |]. rewrite Qmult_1_l.
    rewrite <- Zle_Qle. lia.
Qed.

(** X3: the match ratio of an entity is between 0 and 1, for every entity
    and AnswerSet (it is 0 when nothing was answered). *)
Theorem normalized_score_range (a : animal) (answers : gmap string Z) :
  (0 <= normalized_score a answers <= 1)%Q
  ∧ normalized_score a ∅ = 0%Q.
Proof. split; [apply normalized_score_bounds | reflexivity]. Qed.

Lemma best_candidate_spec candidates (answers : gmap string Z) best score :
  (best_candidate candidates answers best score = (best, score)
   ∧ Forall (fun a => (normalized_score a answers <= score)%Q) candidates)
  ∨ (∃ pre a post,
       candidates = pre ++ a :: post
       ∧ best_candidate candidates answers best score
         = (Some a, normalized_score a answers)
       ∧ (score < normalized_score a answers)%Q
       ∧ Forall (fun b => (normalized_score b answers < normalized_score a answers)%Q) pre
       ∧ Forall (fun b => (normalized_score b answers <= normalized_score a answers)%Q) post).
Proof.
  revert best score. induction candidates as [| c rest IH]; intros best score.
  - left. split; [reflexivity | constructor].
  - simpl. destruct (Qltb score (normalized_score c answers)) eqn:Hlt.
    + apply Qltb_lt in Hlt. right.
      destruct (IH (Some c) (normalized_score c answers))
        as [[Heq Hall] | (pre & r & post & -> & Heq & Hgt & Hpre & Hpost)].
      * exists [], c, rest. repeat split; [exact Heq | exact Hlt | constructor | exact Hall].
      * exists (c :: pre), r, post.
        repeat split; [exact Heq | by eapply Qlt_trans | | exact Hpost].
        constructor; [exact Hgt | exact Hpre].
    + apply Qltb_nlt, Qnot_lt_le in Hlt.
      destruct (IH best score)
        as [[Heq Hall] | (pre & r & post & -> & Heq & Hgt & Hpre & Hpost)].
      * left. split; [exact Heq |]. constructor; [exact Hlt | exact Hall].
      * right. exists (c :: pre), r, post.
        repeat split; [exact Heq | exact Hgt | | exact Hpost].
        constructor; [by eapply Qle_lt_trans | exact Hpre].
Qed.

Lemma make_guess_many animals (answers : gmap string Z) :
  (2 ≤ length (filter_candidates animals answers))%nat →
  make_guess animals answers
  = ((best_candidate (filter_candidates animals answers) answers None 0%Q).1,
     py_min (95 # 100) (py_max (1 # 10)
       (raw_confidence
          (best_candidate (filter_candidates animals answers) answers None 0%Q).2
          (length (filter_candidates animals answers))))).
Proof.
  intros Hlen. unfold make_guess.
  destruct (filter_candidates animals answers) as [| a [| b rest]];
    simpl in Hlen; [lia | lia |].
  change (length (a :: b :: rest) =? 1)%nat with false. cbv iota.
  by destruct (best_candidate (a :: b :: rest) answers None 0%Q).
Qed.

(** X4: with two or more candidates [make_guess] names no animal exactly
    when every candidate has match ratio 0; otherwise it names the first
    candidate, in stored order, whose match ratio is the greatest: those
    before it have a strictly smaller ratio, those after it none greater. *)
Theorem make_guess_best (animals : list animal) (answers : gmap string Z) :
  let candidates := filter_candidates animals answers in
  (2 ≤ length candidates)%nat →
  ((make_guess animals answers).1 = None
   ↔ Forall (fun a => (normalized_score a answers == 0)%Q) candidates)
  ∧ (∀ a, (make_guess animals answers).1 = Some a →
       ∃ pre post,
         candidates = pre ++ a :: post
         ∧ (0 < normalized_score a answers)%Q
         ∧ Forall (fun b => (normalized_score b answers < normalized_score a answers)%Q) pre
         ∧ Forall (fun b => (normalized_score b answers <= normalized_score a answers)%Q) post).
Proof.
  intros candidates Hlen. subst candidates. rewrite make_guess_many by exact Hlen.
  simpl fst.
  destruct (best_candidate_spec (filter_candidates animals answers) answers None 0%Q)
    as [[Heq Hall] | (pre & r & post & Hsplit & Heq & Hgt & Hpre & Hpost)];
    rewrite Heq; simpl fst.
  - split; [| discriminate]. split; [intros _ | done].
    eapply Forall_impl; [exact Hall |]. intros a Hle. simpl in Hle.
    apply Qle_antisym; [exact Hle | apply normalized_score_bounds].
  - split.
    + split; [discriminate |]. intros Hzero. rewrite Hsplit in Hzero.
      apply Forall_app in Hzero as [_ Hzero].
      apply Forall_cons in Hzero as [Hzero _]. rewrite Hzero in Hgt.
      by apply Qlt_irrefl in Hgt.
    + intros a [= <-]. exists pre, post. done.
Qed.

Lemma make_guess_best_witness :
  (2 ≤ length (filter_candidates default_animals {["mammal" := 1%Z]}))%nat
  ∧ ((make_guess default_animals {["mammal" := 1%Z]}).1 = None
     ↔ Forall (fun a => (normalized_score a {["mammal" := 1%Z]} == 0)%Q)
         (filter_candidates default_animals {["mammal" := 1%Z]})).
Proof.
  assert (H : (2 ≤ length (filter_candidates default_animals {["mammal" := 1%Z]}))%nat)
    by (vm_compute; lia).
  split; [exact H |].
  exact (proj1 (make_guess_best default_animals {["mammal" := 1%Z]} H)).
Defined.

(** X5: an animal named by [make_guess] is always one of the candidates:
    it belongs to the entity set and no answer excludes it. *)
Theorem make_guess_candidate (animals : list animal) (answers : gmap string Z)
    (a : animal) :
  (make_guess animals answers).1 = Some a →
  a ∈ filter_candidates animals answers ∧ a ∈ animals ∧ survives a answers.
Proof.
  intros Hguess.
  assert (Hin : a ∈ filter_candidates animals answers).
  { destruct (filter_candidates animals answers) as [| c0 [| c1 rest]] eqn:Hc.
    - unfold make_guess in Hguess. rewrite Hc in Hguess. discriminate.
    - unfold make_guess in Hguess. rewrite Hc in Hguess. simpl in Hguess.
      injection Hguess as <-. apply list_elem_of_here.
    - assert (Hlen : (2 ≤ length (filter_candidates animals answers))%nat)
        by (rewrite Hc; simpl; lia).
      rewrite make_guess_many in Hguess by exact Hlen. simpl in Hguess.
      rewrite Hc in Hguess.
      destruct (best_candidate_spec (c0 :: c1 :: rest) answers None 0%Q)
        as [[Heq _] | (pre & r & post & Hsplit & Heq & _)];
        rewrite Heq in Hguess; simpl in Hguess; [discriminate |].
      injection Hguess as <-. rewrite Hsplit.
      apply elem_of_app. right. apply list_elem_of_here. }
  split; [exact Hin |].
  rewrite filter_candidates_filter in Hin.
  apply list_elem_of_filter in Hin as [Hs Hin]. done.
Qed.

Lemma make_guess_candidate_witness :
  ∃ whale, (make_guess default_animals {["mammal" := 1%Z; "aquatic" := 1%Z]}).1
           = Some whale
           ∧ whale ∈ default_animals.
Proof.
  eexists. assert (H : (make_guess default_animals
                          {["mammal" := 1%Z; "aquatic" := 1%Z]}).1 = Some _)
    by (vm_compute; reflexivity).
  split; [exact H |].
  exact (proj1 (proj2 (make_guess_candidate default_animals _ _ H))).
Defined.

Lemma best_candidate_score_nonneg candidates (answers : gmap string Z) :
  (0 <= (best_candidate candidates answers None 0%Q).2)%Q.
Proof.
  destruct (best_candidate_spec candidates answers None 0%Q)
    as [[Heq _] | (pre & r & post & _ & Heq & _)]; rewrite Heq; simpl.
  - discriminate.
  - apply normalized_score_bounds.
Qed.

(** X6: with eleven or more candidates the factor
    [1 - (num_candidates - 1) * 0.1] is not positive, and the confidence of
    [make_guess] is the floor 0.1 whatever the scores are. *)
Theorem make_guess_confidence_floor (animals : list animal)
    (answers : gmap string Z) :
  (11 ≤ length (filter_candidates animals answers))%nat →
  (make_guess animals answers).2 = (1 # 10)%Q.
Proof.
  intros Hlen. rewrite make_guess_many by lia. simpl snd.
  pose proof (best_candidate_score_nonneg (filter_candidates animals answers) answers)
    as Hs.
  set (s := (best_candidate (filter_candidates animals answers) answers None 0%Q).2) in *.
  set (n := length (filter_candidates animals answers)) in *.
  assert (Hn : (10 <= inject_Z (Z.of_nat n - 1))%Q).
  { change 10%Q with (inject_Z 10). rewrite <- Zle_Qle. lia. }
  assert (Hraw : (raw_confidence s n <= 0)%Q).
  { unfold raw_confidence. Lqa.nra. }
  unfold py_max.
  assert (Hlo : Qltb (1 # 10) (raw_confidence s n) = false).
  { apply Qltb_nlt. intros Hlt. Lqa.lra. }
  rewrite Hlo. reflexivity.
Qed.

Lemma make_guess_confidence_floor_witness :
  let zoo := default_animals ++ [Animal "Zebra" ∅] in
  (11 ≤ length (filter_candidates zoo ∅))%nat
  ∧ (make_guess zoo ∅).2 = (1 # 10)%Q.
Proof.
  intros zoo.
  assert (H : (11 ≤ length (filter_candidates zoo ∅))%nat) by (vm_compute; lia).
  split; [exact H | exact (make_guess_confidence_floor zoo ∅ H)].
Defined.

(** An answer agrees with an entity: yes with a value above 0.5, or no with
    a value below 0.5. *)
Lemma count_matches_all a pairs score :
  Forall (fun p => (p.2 = 1%Z ∧ (1 # 2 < value a p.1)%Q)
                   ∨ (p.2 = 0%Z ∧ (value a p.1 < 1 # 2)%Q)) pairs →
  count_matches a pairs score = (score + Z.of_nat (length pairs))%Z.
Proof.
  revert score. induction pairs as [| [f v] rest IH]; intros score Hall.
  - simpl. lia.
  - apply Forall_cons in Hall as [Hag Hall]. simpl in Hag. unfold value in Hag.
    cbn [count_matches].
    assert (Htest : (v =? 1)%Z && Qltb (1 # 2) (get (features a) f 0)
                    || (v =? 0)%Z && Qltb (get (features a) f 0) (1 # 2) = true).
    { destruct Hag as [[-> Hlt] | [-> Hlt]]; apply Qltb_lt in Hlt; rewrite Hlt;
        simpl; first [reflexivity | apply orb_true_r]. }
    rewrite Htest, IH by exact Hall. simpl length. lia.
Qed.

Lemma normalized_score_full a (answers : gmap string Z) :
  answers ≠ ∅ →
  map_Forall (fun _ v => v = 0%Z ∨ v = 1%Z) answers →
  survives a answers →
  (∀ f v, answers !! f = Some v → ¬ (value a f == 1 # 2)%Q) →
  (normalized_score a answers == 1)%Q.
Proof.
  intros Hne H01 Hs Hnb. unfold normalized_score.
  assert (Hcount : count_matches a (items answers) 0 = Z.of_nat (size answers)).
  { rewrite count_matches_all.
    - unfold items. rewrite length_map_to_list. lia.
    - unfold items. apply Forall_forall. intros [f v] Hin.
      apply elem_of_map_to_list in Hin. simpl.
      specialize (Hs f v Hin). specialize (Hnb f v Hin).
      destruct (H01 f v Hin) as [-> | ->].
      + right. split; [reflexivity |].
        destruct (Qlt_le_dec (value a f) (1 # 2)) as [Hlt | Hle]; [exact Hlt |].
        apply Qle_lteq in Hle as [Hlt | Heq].
        * exfalso. apply Hs. right. done.
        * exfalso. apply Hnb. by symmetry.
      + left. split; [reflexivity |].
        destruct (Qlt_le_dec (1 # 2) (value a f)) as [Hlt | Hle]; [exact Hlt |].
        apply Qle_lteq in Hle as [Hlt | Heq].
        * exfalso. apply Hs. left. done.
        * exfalso. by apply Hnb. }
  rewrite Hcount.
  assert (Hpos : (0 < Z.of_nat (size answers))%Z).
  { assert (size answers ≠ 0%nat); [| lia]. by rewrite map_size_empty_iff. }
  rewrite (proj2 (Z.ltb_lt _ _) Hpos).
  apply Qmult_inv_r. intros H0. rewrite (Zlt_Qlt 0) in Hpos.
  rewrite H0 in Hpos. by apply Qlt_irrefl in Hpos.
Qed.

(** X7: when the AnswerSet is not empty, holds only 0 and 1, and no
    candidate has the boundary value 0.5 on an answered feature, every
    candidate has match ratio 1 and [make_guess] names the first candidate
    in stored order: the scores tell candidates apart only through boundary
    values. *)
Theorem make_guess_first_candidate (animals : list animal)
    (answers : gmap string Z) :
  let candidates := filter_candidates animals answers in
  answers ≠ ∅ →
  map_Forall (fun _ v => v = 0%Z ∨ v = 1%Z) answers →
  (∀ a f v, a ∈ candidates → answers !! f = Some v → ¬ (value a f == 1 # 2)%Q) →
  Forall (fun a => (normalized_score a answers == 1)%Q) candidates
  ∧ (make_guess animals answers).1 = head candidates.
Proof.
  intros candidates Hne H01 Hnb.
  assert (Hall : Forall (fun a => (normalized_score a answers == 1)%Q) candidates).
  { apply Forall_forall. intros a Hin. apply normalized_score_full; try done.
    - subst candidates. rewrite filter_candidates_filter in Hin.
      by apply list_elem_of_filter in Hin as [Hs _].
    - intros f v. by apply Hnb. }
  split; [exact Hall |]. subst candidates.
  destruct (filter_candidates animals answers) as [| c0 [| c1 rest]] eqn:Hc.
  - unfold make_guess. by rewrite Hc.
  - unfold make_guess. by rewrite Hc.
  - rewrite make_guess_many by (rewrite Hc; simpl; lia). rewrite Hc. cbn [fst].
    destruct (best_candidate_spec (c0 :: c1 :: rest) answers None 0%Q)
      as [[_ Hle] | (pre & r & post & Hsplit & Heq & _ & Hpre & _)].
    + exfalso. apply Forall_cons in Hle as [Hle _].
      apply Forall_cons in Hall as [H0 _]. rewrite H0 in Hle. by apply Hle.
    + rewrite Heq. simpl. destruct pre as [| p pre].
      * by injection Hsplit as <- _.
      * exfalso. injection Hsplit as <- Hsplit.
        apply Forall_cons in Hpre as [Hlt _].
        assert (Hr : (normalized_score r answers == 1)%Q).
        { rewrite Forall_forall in Hall. apply Hall. right. rewrite Hsplit.
          apply elem_of_app. right. apply list_elem_of_here. }
        apply Forall_cons in Hall as [H0 _].
        rewrite H0, Hr in Hlt. by apply Qlt_irrefl in Hlt.
Qed.

Lemma make_guess_first_candidate_witness :
  ({["large" := 1%Z]} : gmap string Z) ≠ ∅
  ∧ (make_guess default_animals {["large" := 1%Z]}).1
    = head (filter_candidates default_animals {["large" := 1%Z]}).
Proof.
  assert (Hne : ({["large" := 1%Z]} : gmap string Z) ≠ ∅)
    by apply insert_non_empty.
  split; [exact Hne |].
  refine (proj2 (make_guess_first_candidate default_animals {["large" := 1%Z]} Hne _ _)).
  - apply map_Forall_singleton. by right.
  - intros a f v Hin Hf. apply lookup_singleton_Some in Hf as [<- <-].
    vm_compute in Hin.
    repeat (apply elem_of_cons in Hin as [-> | Hin]; [by vm_compute |]).
    by apply elem_of_nil in Hin.
Defined.

(** ** Further properties of the question selector *)

Lemma filter_all_or_witness {A} (P : A → Prop) `{!∀ x, Decision (P x)} (l : list A) :
  length (filter P l) = length l ∨ ∃ x, x ∈ l ∧ ¬ P x.
Proof.
  induction l as [| x l IH]; [by left |].
  rewrite filter_cons. destruct (decide (P x)) as [Hp | Hn].
  - destruct IH as [Heq | (y & Hy & Hny)].
    + left. simpl. by rewrite Heq.
    + right. exists y. split; [by right | exact Hny].
  - right. exists x. split; [by left | exact Hn].
Qed.

Lemma filter_nonempty_witness {A} (P : A → Prop) `{!∀ x, Decision (P x)} (l : list A) :
  length (filter P l) ≠ 0%nat → ∃ x, x ∈ l ∧ P x.
Proof.
  intros Hlen. destruct (filter P l) as [| x rest] eqn:Hf; [done |].
  assert (Hin : x ∈ filter P l) by (rewrite Hf; by left).
  apply list_elem_of_filter in Hin as [Hp Hin]. by exists x.
Qed.

Section SelectorFurther.

Variable log2 : float → float.

Lemma get_best_question_Some questions candidates asked q :
  get_best_question log2 questions candidates asked = Some q →
  q ∈ unused_questions questions asked
  ∧ (0 <? calculate_entropy log2 candidates (feature q) * weight q)%float = true.
Proof.
  unfold get_best_question. rewrite available_questions_unused.
  destruct (unused_questions questions asked) as [| q0 rest]; [discriminate |].
  destruct (best_question_loop_spec log2 candidates (q0 :: rest) None 0%float)
    as [[Heq _] | (pre & r & post & Hsplit & Heq & Hgt & _)]; rewrite Heq.
  - discriminate.
  - intros [= <-]. split.
    + rewrite Hsplit. apply elem_of_app. right. apply list_elem_of_here.
    + unfold weighted_gain in Hgt. by rewrite <- calculate_entropy_split_entropy in Hgt.
Qed.

Lemma get_best_question_split questions candidates asked q :
  get_best_question log2 questions candidates asked = Some q →
  q ∈ questions ∧ (feature q ∉ asked)
  ∧ (∃ a, a ∈ candidates ∧ (1 # 2 < value a (feature q))%Q)
  ∧ (∃ b, b ∈ candidates ∧ (value b (feature q) <= 1 # 2)%Q).
Proof.
  intros Hq. apply get_best_question_Some in Hq as [Hin Hgain].
  unfold unused_questions in Hin. apply list_elem_of_filter in Hin as [Hun Hin].
  split; [exact Hin |]. split; [exact Hun |].
  assert (Hguard : ¬ ((length candidates ≤ 1)%nat
                      ∨ yes_count candidates (feature q) = 0%nat
                      ∨ yes_count candidates (feature q) = length candidates)).
  { intros Hguard. rewrite (calculate_entropy_guard log2 _ _ Hguard) in Hgain.
    by rewrite float_zero_mul_not_pos in Hgain. }
  assert (Hyes : yes_count candidates (feature q) ≠ 0%nat) by tauto.
  assert (Hno : yes_count candidates (feature q) ≠ length candidates) by tauto.
  rewrite yes_count_filter in Hyes, Hno. split.
  - by apply filter_nonempty_witness in Hyes.
  - destruct (filter_all_or_witness (fun a => (1 # 2 < value a (feature q))%Q) candidates)
      as [Heq | (b & Hb & Hnb)]; [done |].
    exists b. split; [exact Hb | by apply Qnot_lt_le].
Qed.

(** X8: a question returned by [get_best_question] is a question of the
    bank whose feature was not asked yet, and it splits the candidates:
    some candidate has a value above 0.5 for its feature and some candidate
    has not.  This holds whatever the weights are. *)
Theorem get_best_question_sound (questions : list question)
    (candidates : list animal) (asked_features : list string) (q : question) :
  get_best_question log2 questions candidates asked_features = Some q →
  q ∈ questions ∧ (feature q ∉ asked_features)
  ∧ (∃ a, a ∈ candidates ∧ (1 # 2 < value a (feature q))%Q)
  ∧ (∃ b, b ∈ candidates ∧ (value b (feature q) <= 1 # 2)%Q).
Proof. apply get_best_question_split. Qed.

(** X9: no question is selected when at most one candidate is left, nor
    when every question of the bank has been asked. *)
Theorem get_best_question_none (questions : list question)
    (candidates : list animal) (asked_features : list string) :
  ((length candidates ≤ 1)%nat →
   get_best_question log2 questions candidates asked_features = None)
  ∧ (Forall (fun q => feature q ∈ asked_features) questions →
     get_best_question log2 questions candidates asked_features = None).
Proof.
  split.
  - intros Hlen.
    destruct (get_best_question log2 questions candidates asked_features) as [q |] eqn:Hq;
      [| done].
    apply get_best_question_split in Hq as (_ & _ & (a & Ha & Hya) & (b & Hb & Hnb)).
    destruct candidates as [| c [| c' rest]]; simpl in Hlen; [| | lia].
    + by apply elem_of_nil in Ha.
    + apply list_elem_of_singleton in Ha as ->. apply list_elem_of_singleton in Hb as ->.
      exfalso. exact (Qlt_not_le _ _ Hya Hnb).
  - intros Hall.
    destruct (get_best_question log2 questions candidates asked_features) as [q |] eqn:Hq;
      [| done].
    apply get_best_question_split in Hq as (Hin & Hun & _).
    rewrite Forall_forall in Hall. exfalso. by apply Hun, Hall.
Qed.

(** X10: answering the selected question never empties the candidate set,
    and the answer "no" always removes at least one candidate; the answer
    "yes" removes none of the candidates above 0.5. *)
Theorem selected_question_narrows (questions : list question)
    (animals : list animal) (answers : gmap string Z)
    (asked_features : list string) (q : question) :
  get_best_question log2 questions (filter_candidates animals answers)
    asked_features = Some q →
  answers !! feature q = None →
  (length (filter_candidates animals (<[feature q := 0%Z]> answers))
   < length (filter_candidates animals answers))%nat
  ∧ filter_candidates animals (<[feature q := 0%Z]> answers) ≠ []
  ∧ filter_candidates animals (<[feature q := 1%Z]> answers) ≠ [].
Proof.
  intros Hq Hfresh.
  apply get_best_question_split in Hq as (_ & _ & (a & Ha & Hya) & (b & Hb & Hnb)).
  assert (Hstep : ∀ v, filter_candidates animals (<[feature q := v]> answers)
                       = filter (fun c => survives c {[feature q := v]})
                           (filter_candidates animals answers)).
  { intros v. rewrite <- filter_candidates_filter, filter_candidates_union.
    - by rewrite insert_union_singleton_r.
    - by apply map_disjoint_singleton_r_2. }
  rewrite !Hstep. split; [| split].
  - apply (length_filter_lt _ _ a); [exact Ha |].
    intros Hs. apply (Hs (feature q) 0%Z); [apply lookup_singleton_eq |].
    right. done.
  - intros Hnil. assert (Hin : b ∈ filter (fun c => survives c {[feature q := 0%Z]})
                                 (filter_candidates animals answers)).
    { apply list_elem_of_filter. split; [| exact Hb].
      intros f v Hf. apply lookup_singleton_Some in Hf as [<- <-].
      intros [[H _] | [_ H]]; [discriminate | exact (Qlt_not_le _ _ H Hnb)]. }
    rewrite Hnil in Hin. by apply elem_of_nil in Hin.
  - intros Hnil. assert (Hin : a ∈ filter (fun c => survives c {[feature q := 1%Z]})
                                 (filter_candidates animals answers)).
    { apply list_elem_of_filter. split; [| exact Ha].
      intros f v Hf. apply lookup_singleton_Some in Hf as [<- <-].
      intros [[_ H] | [H _]]; [| discriminate].
      apply (Qlt_irrefl (1 # 2)). by eapply Qlt_trans. }
    rewrite Hnil in Hin. by apply elem_of_nil in Hin.
Qed.

End SelectorFurther.

Lemma get_best_question_none_witness :
  (length [Animal "Dog" ∅] ≤ 1)%nat
  ∧ get_best_question log2_exact default_questions [Animal "Dog" ∅] [] = None.
Proof.
  assert (H : (length [Animal "Dog" ∅] ≤ 1)%nat) by (simpl; lia).
  split; [exact H |].
  exact (proj1 (get_best_question_none log2_exact default_questions
                  [Animal "Dog" ∅] []) H).
Defined.

Lemma get_best_question_sound_witness :
  let dog := Animal "Dog" (features_of [("mammal", 1%Q)]) in
  let fish := Animal "Fish" (features_of [("aquatic", 1%Q)]) in
  let q1 := Question "Is it a mammal?" "mammal" 0.8 in
  let q2 := Question "Does it live in water?" "aquatic" 0.8 in
  get_best_question log2_exact [q1; q2] [dog; fish] [] = Some q1
  ∧ ∃ a, a ∈ [dog; fish] ∧ (1 # 2 < value a (feature q1))%Q.
Proof.
  intros dog fish q1 q2.
  pose proof (proj1 get_best_question_tie) as H.
  split; [exact H |].
  exact (proj1 (proj2 (proj2 (get_best_question_sound _ _ _ _ _ H)))).
Defined.

Lemma selected_question_narrows_witness :
  let dog := Animal "Dog" (features_of [("mammal", 1%Q)]) in
  let fish := Animal "Fish" (features_of [("aquatic", 1%Q)]) in
  let q1 := Question "Is it a mammal?" "mammal" 0.8 in
  let q2 := Question "Does it live in water?" "aquatic" 0.8 in
  get_best_question log2_exact [q1; q2] (filter_candidates [dog; fish] ∅) []
  = Some q1
  ∧ (∅ : gmap string Z) !! feature q1 = None
  ∧ (length (filter_candidates [dog; fish] (<[feature q1 := 0%Z]> ∅))
     < length (filter_candidates [dog; fish] ∅))%nat.
Proof.
  intros dog fish q1 q2.
  pose proof (proj1 get_best_question_tie) as H.
  change [Animal "Dog" (features_of [("mammal", 1%Q)]);
          Animal "Fish" (features_of [("aquatic", 1%Q)])]
    with (filter_candidates [dog; fish] ∅) in H.
  assert (Hfresh : (∅ : gmap string Z) !! feature q1 = None) by reflexivity.
  split; [exact H |]. split; [exact Hfresh |].
  exact (proj1 (selected_question_narrows _ _ _ _ _ _ H Hfresh)).
Defined.

(** ** Further properties of the learning updater *)

Lemma scan_keywords_lookup feats f keywords d g :
  scan_keywords feats f keywords d !! g
  = if String.eqb f g && existsb (fun keyword => contains keyword d) keywords
    then Some 1%Q else feats !! g.
Proof.
  induction keywords as [| keyword rest IH]; simpl.
  - by rewrite andb_false_r.
  - destruct (contains keyword d); simpl.
    + rewrite andb_true_r, lookup_insert.
      destruct (String.eqb_spec f g) as [-> | Hne].
      * by rewrite decide_True.
      * by rewrite decide_False.
    + exact IH.
Qed.

Lemma scan_table_lookup (table : list (string * list string)) feats d g :
  fold_left
    (fun fs '(feature, keywords) => scan_keywords fs feature keywords d)
    table feats !! g
  = if existsb
         (fun '(feature, keywords) =>
            String.eqb feature g
            && existsb (fun keyword => contains keyword d) keywords)
         table
    then Some 1%Q else feats !! g.
Proof.
  revert feats. induction table as [| [f keywords] rest IH]; intros feats; [done |].
  simpl. rewrite IH, scan_keywords_lookup.
  destruct (String.eqb f g && existsb (fun keyword => contains keyword d) keywords);
    simpl; [| done].
  by destruct (existsb _ rest).
Qed.

Lemma triggered_in_table d g :
  triggered d g = true → g ∈ feature_keywords.*1.
Proof.
  unfold triggered. intros H. apply existsb_exists in H as ([f keywords] & Hin & Ht).
  apply andb_true_iff in Ht as [Heq _]. apply String.eqb_eq in Heq as <-.
  apply list_elem_of_In in Hin. apply list_elem_of_fmap. by exists (f, keywords).
Qed.

Lemma animal_eq (a b : animal) : name a = name b → features a = features b → a = b.
Proof. destruct a, b. simpl. by intros -> ->. Qed.

Lemma fmap_alter_invariant {A B} (g : A → B) (f : A → A) (i : nat) (l : list A) :
  (∀ x, g (f x) = g x) → g <$> alter f i l = g <$> l.
Proof.
  intros Hg. revert i. induction l as [| x l IH]; intros [| i]; simpl; try done.
  - by rewrite Hg.
  - f_equal. apply IH.
Qed.

Section LearningFurther.

Variable lower : string → string.

Lemma extract_lookup a d g :
  features (extract_features_from_description lower a d) !! g
  = if triggered (lower d) g then Some 1%Q else features a !! g.
Proof.
  unfold extract_features_from_description, triggered. cbn [features].
  apply scan_table_lookup.
Qed.

(** X11: for every description, feature extraction keeps the entity's name,
    sets to 1 exactly the features of the keyword table one of whose
    keywords occurs in the lowered description, and leaves every other
    feature as it was: no feature is removed and none outside the table is
    touched. *)
Theorem extract_features_effect (a : animal) (description : string) :
  let a' := extract_features_from_description lower a description in
  name a' = name a
  ∧ (∀ g, features a' !! g
          = if triggered (lower description) g then Some 1%Q else features a !! g)
  ∧ (∀ g, is_Some (features a !! g) → is_Some (features a' !! g))
  ∧ (∀ g, g ∉ feature_keywords.*1 → features a' !! g = features a !! g).
Proof.
  intros a'. subst a'. split; [reflexivity |]. split; [apply extract_lookup |]. split.
  - intros g Hg. rewrite extract_lookup. by destruct (triggered (lower description) g).
  - intros g Hg. rewrite extract_lookup.
    destruct (triggered (lower description) g) eqn:Ht; [| done].
    by apply triggered_in_table in Ht.
Qed.

Lemma learn_lookup answers description a g :
  features (learn lower answers description a) !! g
  = if match description with
       | EmptyString => false
       | _ => triggered (lower description) g
       end
    then Some 1%Q
    else match answers !! g with
         | Some v => Some (inject_Z v)
         | None => features a !! g
         end.
Proof.
  unfold learn. destruct description as [| c d].
  - simpl. apply update_features_answers.
  - rewrite extract_lookup. simpl features. by rewrite update_features_answers.
Qed.

(** X12: the features of the entity [learn_from_game] found or created: a
    feature whose keyword occurs in a non-empty description is 1, also when
    the answer to it was 0; any other answered feature has the value of its
    answer; the remaining features keep their former value. *)
Theorem learn_from_game_features (self : guesser) (now n : string)
    (answers : gmap string Z) (description : string) :
  let updated := learn lower answers description in
  animals (learn_from_game lower self now n answers description)
  = match find_animal lower (animals self) n with
    | Some i => alter updated i (animals self)
    | None => animals self ++ [updated (Animal n ∅)]
    end
  ∧ ∀ a g, features (updated a) !! g
           = if match description with
                | EmptyString => false
                | _ => triggered (lower description) g
                end
             then Some 1%Q
             else match answers !! g with
                  | Some v => Some (inject_Z v)
                  | None => features a !! g
                  end.
Proof.
  intros updated. split; [apply learn_from_game_animals |].
  intros a g. apply learn_lookup.
Qed.

Lemma learn_idempotent answers description a :
  learn lower answers description (learn lower answers description a)
  = learn lower answers description a.
Proof.
  apply animal_eq; [by rewrite !learn_name |].
  apply map_eq. intros g. rewrite !learn_lookup.
  destruct (match description with
            | EmptyString => false
            | _ => triggered (lower description) g
            end); [done |].
  by destruct (answers !! g).
Qed.

Lemma find_animal_names l1 l2 n :
  name <$> l1 = name <$> l2 → find_animal lower l1 n = find_animal lower l2 n.
Proof.
  revert l2. induction l1 as [| a l1 IH]; intros [| b l2] Heq; try done.
  simpl in Heq. injection Heq as Hab Heq. simpl. rewrite Hab.
  by rewrite (IH l2 Heq).
Qed.

Lemma find_animal_app_new l x n :
  find_animal lower l n = None → lower (name x) = lower n →
  find_animal lower (l ++ [x]) n = Some (length l).
Proof.
  intros Hnone Hx. induction l as [| a l IH]; simpl in *.
  - by rewrite Hx, String.eqb_refl.
  - destruct (String.eqb (lower (name a)) (lower n)); [done |].
    apply fmap_None in Hnone. by rewrite (IH Hnone).
Qed.

(** X13: learning the same game a second time changes no entity: the
    entity store after two identical calls is the store after one. *)
Theorem learn_from_game_idempotent (self : guesser) (now now' n : string)
    (answers : gmap string Z) (description : string) :
  animals (learn_from_game lower
             (learn_from_game lower self now n answers description)
             now' n answers description)
  = animals (learn_from_game lower self now n answers description).
Proof.
  rewrite (learn_from_game_animals lower (learn_from_game lower self now n answers description)).
  rewrite !learn_from_game_animals.
  destruct (find_animal lower (animals self) n) as [i |] eqn:Hfind.
  - rewrite (find_animal_names _ (animals self)), Hfind.
    + apply list_eq. intros j. destruct (decide (i = j)) as [<- | Hne].
      * rewrite !list_lookup_alter_eq. destruct (animals self !! i); [| done].
        simpl. by rewrite learn_idempotent.
      * by rewrite !list_lookup_alter_ne.
    + apply fmap_alter_invariant. intros x. apply learn_name.
  - rewrite find_animal_app_new; [| exact Hfind | by rewrite learn_name].
    by rewrite alter_last, learn_idempotent.
Qed.

(** X14: if the stored names are pairwise distinct up to case before
    [learn_from_game], they are so after it. *)
Theorem learn_from_game_unique_names (self : guesser) (now n : string)
    (answers : gmap string Z) (description : string) :
  NoDup ((fun a => lower (name a)) <$> animals self) →
  NoDup ((fun a => lower (name a))
           <$> animals (learn_from_game lower self now n answers description)).
Proof.
  intros Hnd. rewrite learn_from_game_animals.
  destruct (find_animal lower (animals self) n) as [i |] eqn:Hfind.
  - rewrite fmap_alter_invariant; [exact Hnd |].
    intros x. by rewrite learn_name.
  - rewrite fmap_app. apply NoDup_app. split; [exact Hnd |]. split.
    + intros x Hx Hin. simpl in Hin. apply list_elem_of_singleton in Hin.
      rewrite learn_name in Hin. simpl in Hin. subst x.
      apply list_elem_of_fmap in Hx as (a & Ha & Hin).
      apply find_animal_None in Hfind. rewrite Forall_forall in Hfind.
      by apply (Hfind a Hin).
    + apply NoDup_singleton.
Qed.

End LearningFurther.

Lemma learn_from_game_unique_names_witness :
  NoDup ((fun a => str_lower (name a)) <$> default_animals)
  ∧ NoDup ((fun a => str_lower (name a))
             <$> animals (learn_from_game str_lower
                            (Guesser default_animals default_questions [])
                            "2024-01-01T00:00:00" "ZEBRA" ∅ "striped")).
Proof.
  assert (H : NoDup ((fun a => str_lower (name a)) <$> default_animals)).
  { apply (bool_decide_unpack _). vm_compute. reflexivity. }
  split; [exact H |].
  exact (learn_from_game_unique_names str_lower
           (Guesser default_animals default_questions []) _ "ZEBRA" ∅ "striped" H).
Defined.

(** ** Properties of the game session *)

Lemma well_asked_start bank : well_asked bank ∅ [].
Proof.
  unfold well_asked. split; [constructor |]. split; [reflexivity |].
  split; [| split; [apply map_Forall_empty | constructor]].
  intros f. split; [intros H; by apply elem_of_nil in H |].
  rewrite lookup_empty. by intros [? ?].
Qed.

Lemma well_asked_step bank (answers : gmap string Z) asked q (v : Z) :
  well_asked bank answers asked →
  q ∈ bank → feature q ∉ asked → v = 0%Z ∨ v = 1%Z →
  well_asked bank (<[feature q := v]> answers) (asked ++ [feature q])
  ∧ answers !! feature q = None.
Proof.
  intros (Hnd & Hsize & Hdom & H01 & Hbank) Hq Hnew Hv.
  assert (Hfresh : answers !! feature q = None).
  { destruct (answers !! feature q) eqn:Hf; [| done].
    exfalso. apply Hnew, Hdom. by eexists. }
  split; [| exact Hfresh]. unfold well_asked. split; [| split; [| split; [| split]]].
  - apply NoDup_app. split; [exact Hnd |]. split; [| apply NoDup_singleton].
    intros f Hf Hin. apply list_elem_of_singleton in Hin. by subst f.
  - rewrite map_size_insert_None by exact Hfresh. rewrite length_app. simpl. lia.
  - intros f. rewrite elem_of_app, list_elem_of_singleton, lookup_insert_is_Some, Hdom.
    split.
    + intros [Hs | ->]; [| by left]. destruct (decide (feature q = f)); [by left | by right].
    + intros [<- | [_ Hs]]; [by right | by left].
  - by apply map_Forall_insert_2.
  - apply Forall_app. split; [exact Hbank |]. constructor; [| constructor].
    apply list_elem_of_fmap. by exists q.
Qed.

Section GameProperties.

Variable log2 : float → float.
Variable lower : string → string.
Variable strip : string → string.

Lemma ask_questions_spec question_nums self answers asked inputs
    answers' asked' inputs' :
  ask_questions log2 lower strip question_nums self answers asked inputs
    = Some (answers', asked', inputs') →
  well_asked (questions self) answers asked →
  well_asked (questions self) answers' asked'
  ∧ answers ⊆ answers'
  ∧ (length asked'
     ≤ length asked
       + length (List.filter (fun k => negb (max_questions <=? k)%nat) question_nums))%nat.
Proof.
  revert answers asked inputs.
  induction question_nums as [| k later IH]; intros answers asked inputs Hrun Hwf.
  - simpl in Hrun. injection Hrun as <- <- <-. split; [exact Hwf |].
    split; [reflexivity | simpl; lia].
  - cbn [ask_questions] in Hrun. cbn [List.filter].
    destruct (length (filter_candidates (animals self) answers) <=? 2)%nat.
    { simpl in Hrun. injection Hrun as <- <- <-. split; [exact Hwf |].
      split; [reflexivity | lia]. }
    destruct (max_questions <=? k)%nat eqn:Hk.
    { simpl in Hrun. injection Hrun as <- <- <-. split; [exact Hwf |].
      split; [reflexivity | simpl; lia]. }
    simpl in Hrun.
    destruct (get_best_question log2 (questions self)
                (filter_candidates (animals self) answers) asked) as [q |] eqn:Hq.
    2:{ injection Hrun as <- <- <-. split; [exact Hwf |].
        split; [reflexivity | simpl; lia]. }
    destruct (read_yes_no lower strip inputs) as [[yes inputs1] |]; [| discriminate].
    apply get_best_question_split in Hq as (Hin & Hnew & _).
    assert (Hv : (if yes then 1%Z else 0%Z) = 0%Z ∨ (if yes then 1%Z else 0%Z) = 1%Z)
      by (destruct yes; [by right | by left]).
    destruct (well_asked_step _ _ _ _ _ Hwf Hin Hnew Hv) as [Hwf' Hfresh].
    destruct (IH _ _ _ Hrun Hwf') as (Hwf'' & Hsub & Hlen).
    split; [exact Hwf'' |]. split.
    + etrans; [| exact Hsub]. by apply insert_subseteq.
    + rewrite length_app in Hlen. simpl in *. lia.
Qed.

Lemma ask_questions_start (self : guesser) (inputs : list string)
    (answers : gmap string Z) (asked_features inputs' : list string) :
  ask_questions log2 lower strip (seq 1 max_questions) self ∅ [] inputs
    = Some (answers, asked_features, inputs') →
  (size answers ≤ 9)%nat
  ∧ length asked_features = size answers
  ∧ NoDup asked_features
  ∧ (∀ f, f ∈ asked_features ↔ is_Some (answers !! f))
  ∧ map_Forall (fun _ v => v = 0%Z ∨ v = 1%Z) answers
  ∧ Forall (fun f => ∃ q, q ∈ questions self ∧ feature q = f) asked_features.
Proof.
  intros Hrun.
  destruct (ask_questions_spec _ _ _ _ _ _ _ _ Hrun (well_asked_start _))
    as ((Hnd & Hsize & Hdom & H01 & Hbank) & _ & Hlen).
  change (length (List.filter (fun k => negb (max_questions <=? k)%nat)
                    (seq 1 max_questions))) with 9%nat in Hlen.
  simpl in Hlen. split; [lia |]. split; [lia |]. split; [exact Hnd |].
  split; [exact Hdom |]. split; [exact H01 |].
  eapply Forall_impl; [exact Hbank |]. intros f Hf.
  apply list_elem_of_fmap in Hf as (q & -> & Hq). by exists q.
Qed.

(** X15: the question loop of [play_game] asks at most nine questions (the
    tenth round always stops before asking), never asks about a feature
    twice, asks only questions of the bank, and leaves an AnswerSet that
    holds exactly the asked features, each with the answer 0 or 1. *)
Theorem ask_questions_bounded (self : guesser) (inputs : list string)
    (answers : gmap string Z) (asked_features inputs' : list string) :
  ask_questions log2 lower strip (seq 1 max_questions) self ∅ [] inputs
    = Some (answers, asked_features, inputs') →
  (size answers ≤ 9)%nat
  ∧ length asked_features = size answers
  ∧ NoDup asked_features
  ∧ (∀ f, f ∈ asked_features ↔ is_Some (answers !! f))
  ∧ map_Forall (fun _ v => v = 0%Z ∨ v = 1%Z) answers
  ∧ Forall (fun f => ∃ q, q ∈ questions self ∧ feature q = f) asked_features.
Proof. apply ask_questions_start. Qed.

Lemma learn_from_game_length self now n answers description :
  (length (animals self)
   ≤ length (animals (learn_from_game lower self now n answers description))
   ≤ S (length (animals self)))%nat.
Proof.
  rewrite learn_from_game_animals.
  destruct (find_animal lower (animals self) n).
  - rewrite length_alter. lia.
  - rewrite length_app. simpl. lia.
Qed.

Lemma learn_from_game_bank_history self now n answers description :
  questions (learn_from_game lower self now n answers description) = questions self
  ∧ game_history (learn_from_game lower self now n answers description)
    = game_history self ++ [GameRecord now n answers description false].
Proof. unfold learn_from_game. by destruct (find_animal lower (animals self) n). Qed.

(** X16: a game that runs to its end counts as exactly one game played and
    at most one correct guess, so it keeps [0 <= correct <= played]. *)
Theorem play_game_stats (self self' : session) (now : string)
    (inputs inputs' : list string) :
  play_game log2 lower strip self now inputs = Some (self', inputs') →
  played (stats self') = (played (stats self) + 1)%Z
  ∧ (correct (stats self') = correct (stats self)
     ∨ correct (stats self') = (correct (stats self) + 1)%Z)
  ∧ ((0 ≤ correct (stats self) ≤ played (stats self))%Z →
     (0 ≤ correct (stats self') ≤ played (stats self'))%Z).
Proof.
  unfold play_game. intros Hrun.
  destruct (ask_questions log2 lower strip (seq 1 max_questions) (core self) ∅ [] inputs)
    as [[[answers asked] inputs1] |]; [| discriminate].
  destruct (make_guess (animals (core self)) answers) as [guess confidence].
  destruct (match guess with
            | Some _ => read_yes_no lower strip inputs1
            | None => Some (false, inputs1)
            end) as [[[|] inputs2] |]; [| | discriminate].
  - injection Hrun as <- <-. simpl. split; [reflexivity |]. split; [by right | lia].
  - destruct inputs2 as [| line1 [| line2 inputs3]]; [discriminate | discriminate |].
    injection Hrun as <- <-. simpl. split; [reflexivity |]. split; [by left | lia].
Qed.

(** X17: what a finished game does to the store.  Either the guess was
    confirmed: the entity store, bank and history are unchanged and
    [correct] grows by one; or it was not: the store is that of
    [learn_from_game] on an AnswerSet of at most nine answers, all 0 or 1,
    with one record added to the history.  In both cases the bank is kept,
    no entity is removed and at most one is added. *)
Theorem play_game_store (self self' : session) (now : string)
    (inputs inputs' : list string) :
  play_game log2 lower strip self now inputs = Some (self', inputs') →
  ((core self' = core self
    ∧ correct (stats self') = (correct (stats self) + 1)%Z)
   ∨ (correct (stats self') = correct (stats self)
      ∧ ∃ answers actual_animal description,
          core self' = learn_from_game lower (core self) now actual_animal
                         answers description
          ∧ (size answers ≤ 9)%nat
          ∧ map_Forall (fun _ v => v = 0%Z ∨ v = 1%Z) answers
          ∧ length (game_history (core self'))
            = S (length (game_history (core self)))))
  ∧ questions (core self') = questions (core self)
  ∧ (length (animals (core self)) ≤ length (animals (core self'))
     ≤ S (length (animals (core self))))%nat.
Proof.
  unfold play_game. intros Hrun.
  destruct (ask_questions log2 lower strip (seq 1 max_questions) (core self) ∅ [] inputs)
    as [[[answers asked] inputs1] |] eqn:Hask; [| discriminate].
  apply ask_questions_start in Hask as (Hsize & _ & _ & _ & H01 & _).
  destruct (make_guess (animals (core self)) answers) as [guess confidence] eqn:Hguess.
  destruct guess as [a |].
  - destruct (read_yes_no lower strip inputs1) as [[[|] inputs2] |]; [| | discriminate].
    + injection Hrun as <- <-. simpl. split; [| split; [reflexivity | lia]].
      left. split; reflexivity.
    + destruct inputs2 as [| line1 [| line2 inputs3]]; [discriminate | discriminate |].
      injection Hrun as <- <-. simpl.
      split; [| split; [apply learn_from_game_bank_history
                       | apply learn_from_game_length]].
      right. split; [reflexivity |]. eexists _, _, _. split; [reflexivity |].
      split; [exact Hsize |]. split; [exact H01 |].
      rewrite (proj2 (learn_from_game_bank_history _ _ _ _ _)), length_app.
      simpl. lia.
  - destruct inputs1 as [| line1 [| line2 inputs3]]; [discriminate | discriminate |].
    injection Hrun as <- <-. simpl.
    split; [| split; [apply learn_from_game_bank_history
                     | apply learn_from_game_length]].
    right. split; [reflexivity |]. eexists _, _, _. split; [reflexivity |].
    split; [exact Hsize |]. split; [exact H01 |].
    rewrite (proj2 (learn_from_game_bank_history _ _ _ _ _)), length_app.
    simpl. lia.
Qed.

End GameProperties.

(** *** A game played to its end *)

(** Four entities and one question that splits them evenly: the question
    is asked, an answer that is neither yes nor no is asked again, the "no"
    leaves two candidates, the first of which is guessed with confidence
    0.9 and confirmed. *)
Example play_game_trace :
  let dog := Animal "Dog" (features_of [("mammal", 1%Q)]) in
  let cat := Animal "Cat" (features_of [("mammal", 1%Q)]) in
  let fish := Animal "Fish" (features_of [("aquatic", 1%Q)]) in
  let bird := Animal "Bird" (features_of [("flies", 1%Q)]) in
  let q1 := Question "Is it a mammal?" "mammal" 0.8 in
  let self := Guesser [dog; cat; fish; bird] [q1] [] in
  ask_questions log2_exact str_lower str_strip (seq 1 max_questions) self ∅ []
    ["maybe"; "No"; " YES "]
  = Some ({["mammal" := 0%Z]}, ["mammal"], [" YES "])
  ∧ (∃ confidence,
       make_guess (animals self) {["mammal" := 0%Z]} = (Some fish, confidence)
       ∧ (confidence == 9 # 10)%Q)
  ∧ play_game log2_exact str_lower str_strip (Session self (GameStats 0 0))
      "2024-01-01T00:00:00" ["maybe"; "No"; " YES "]
    = Some (Session self (GameStats 1 1), []).
Proof.
  intros dog cat fish bird q1 self. split; [vm_compute; reflexivity |]. split.
  - eexists. split; [vm_compute; reflexivity | reflexivity].
  - vm_compute. reflexivity.
Qed.

Lemma ask_questions_bounded_witness :
  let dog := Animal "Dog" (features_of [("mammal", 1%Q)]) in
  let cat := Animal "Cat" (features_of [("mammal", 1%Q)]) in
  let fish := Animal "Fish" (features_of [("aquatic", 1%Q)]) in
  let bird := Animal "Bird" (features_of [("flies", 1%Q)]) in
  let q1 := Question "Is it a mammal?" "mammal" 0.8 in
  let self := Guesser [dog; cat; fish; bird] [q1] [] in
  ask_questions log2_exact str_lower str_strip (seq 1 max_questions) self ∅ []
    ["maybe"; "No"; " YES "]
  = Some ({["mammal" := 0%Z]}, ["mammal"], [" YES "])
  ∧ (size ({["mammal" := 0%Z]} : gmap string Z) ≤ 9)%nat.
Proof.
  intros dog cat fish bird q1 self.
  pose proof (proj1 play_game_trace) as H.
  split; [exact H |].
  exact (proj1 (ask_questions_bounded log2_exact str_lower str_strip _ _ _ _ _ H)).
Defined.

Lemma play_game_stats_witness :
  let dog := Animal "Dog" (features_of [("mammal", 1%Q)]) in
  let cat := Animal "Cat" (features_of [("mammal", 1%Q)]) in
  let fish := Animal "Fish" (features_of [("aquatic", 1%Q)]) in
  let bird := Animal "Bird" (features_of [("flies", 1%Q)]) in
  let q1 := Question "Is it a mammal?" "mammal" 0.8 in
  let self := Guesser [dog; cat; fish; bird] [q1] [] in
  play_game log2_exact str_lower str_strip (Session self (GameStats 0 0))
    "2024-01-01T00:00:00" ["maybe"; "No"; " YES "]
  = Some (Session self (GameStats 1 1), [])
  ∧ played (stats (Session self (GameStats 1 1))) = 1%Z.
Proof.
  intros dog cat fish bird q1 self.
  pose proof (proj2 (proj2 play_game_trace)) as H.
  split; [exact H |].
  exact (proj1 (play_game_stats log2_exact str_lower str_strip _ _ _ _ _ H)).
Defined.

Lemma play_game_store_witness :
  let dog := Animal "Dog" (features_of [("mammal", 1%Q)]) in
  let cat := Animal "Cat" (features_of [("mammal", 1%Q)]) in
  let fish := Animal "Fish" (features_of [("aquatic", 1%Q)]) in
  let bird := Animal "Bird" (features_of [("flies", 1%Q)]) in
  let q1 := Question "Is it a mammal?" "mammal" 0.8 in
  let self := Guesser [dog; cat; fish; bird] [q1] [] in
  play_game log2_exact str_lower str_strip (Session self (GameStats 0 0))
    "2024-01-01T00:00:00" ["maybe"; "No"; " YES "]
  = Some (Session self (GameStats 1 1), [])
  ∧ questions (core (Session self (GameStats 1 1))) = [q1].
Proof.
  intros dog cat fish bird q1 self.
  pose proof (proj2 (proj2 play_game_trace)) as H.
  split; [exact H |].
  exact (proj1 (proj2 (play_game_store log2_exact str_lower str_strip _ _ _ _ _ H))).
Defined.

Lemma existsb_eqb_elem (r : string) (l : list string) :
  existsb (String.eqb r) l = true ↔ r ∈ l.
Proof.
  rewrite existsb_exists. split.
  - intros (x & Hin & Heq). apply String.eqb_eq in Heq as <-. by apply list_elem_of_In.
  - intros Hin. exists r. split; [by apply list_elem_of_In | apply String.eqb_refl].
Qed.

Section Prompt.

Variable lower : string → string.
Variable strip : string → string.

Lemma read_yes_no_cases (inputs : list string) :
  (read_yes_no lower strip inputs = None
   ∧ Forall (fun line => strip (lower line) ∉ ["yes"; "y"; "no"; "n"]) inputs)
  ∨ (∃ skipped line rest b,
       inputs = skipped ++ line :: rest
       ∧ read_yes_no lower strip inputs = Some (b, rest)
       ∧ Forall (fun line => strip (lower line) ∉ ["yes"; "y"; "no"; "n"]) skipped
       ∧ strip (lower line) ∈ (if b then ["yes"; "y"] else ["no"; "n"])).
Proof.
  induction inputs as [| line rest IH]; [left; split; [done | constructor] |].
  cbn [read_yes_no].
  destruct (existsb (String.eqb (strip (lower line))) ["yes"; "y"]) eqn:Hyes.
  { right. exists [], line, rest, true. apply existsb_eqb_elem in Hyes. done. }
  destruct (existsb (String.eqb (strip (lower line))) ["no"; "n"]) eqn:Hno.
  { right. exists [], line, rest, false. apply existsb_eqb_elem in Hno. done. }
  assert (Hbad : strip (lower line) ∉ ["yes"; "y"; "no"; "n"]).
  { intros Hin. change ["yes"; "y"; "no"; "n"] with (["yes"; "y"] ++ ["no"; "n"]) in Hin.
    apply elem_of_app in Hin as [Hin | Hin]; apply existsb_eqb_elem in Hin; congruence. }
  destruct IH as [[Hnone Hall] | (skipped & l & rest' & b & -> & Hsome & Hall & Hl)].
  - left. split; [exact Hnone | by constructor].
  - right. exists (line :: skipped), l, rest', b.
    split; [done |]. split; [exact Hsome |]. split; [by constructor | exact Hl].
Qed.

(** X18: the yes/no prompt skips every line that is not, once lowered and
    stripped, one of yes, y, no, n, and returns the answer of the first line
    that is, leaving the lines after it; it fails only when no line is a
    valid answer. *)
Theorem read_yes_no_spec (inputs : list string) :
  (read_yes_no lower strip inputs = None
   ↔ Forall (fun line => strip (lower line) ∉ ["yes"; "y"; "no"; "n"]) inputs)
  ∧ (∀ b rest, read_yes_no lower strip inputs = Some (b, rest) →
       ∃ skipped line,
         inputs = skipped ++ line :: rest
         ∧ Forall (fun line => strip (lower line) ∉ ["yes"; "y"; "no"; "n"]) skipped
         ∧ strip (lower line) ∈ (if b then ["yes"; "y"] else ["no"; "n"])).
Proof.
  destruct (read_yes_no_cases inputs)
    as [[Hnone Hall] | (skipped & line & rest & b & Hsplit & Hsome & Hall & Hl)].
  - rewrite Hnone. split; [done | discriminate].
  - rewrite Hsome. split.
    + split; [discriminate |]. intros Hbad. rewrite Hsplit in Hbad.
      apply Forall_app in Hbad as [_ Hbad]. apply Forall_cons in Hbad as [Hbad _].
      exfalso. apply Hbad. destruct b.
      * change ["yes"; "y"; "no"; "n"] with (["yes"; "y"] ++ ["no"; "n"]).
        apply elem_of_app. by left.
      * change ["yes"; "y"; "no"; "n"] with (["yes"; "y"] ++ ["no"; "n"]).
        apply elem_of_app. by right.
    + intros b' rest' [= <- <-]. by exists skipped, line.
Qed.

End Prompt.

Lemma read_yes_no_spec_witness :
  read_yes_no str_lower str_strip ["perhaps"; " Y "; "no"] = Some (true, ["no"])
  ∧ ∃ skipped line,
      ["perhaps"; " Y "; "no"] = skipped ++ line :: ["no"]
      ∧ Forall (fun line => str_strip (str_lower line) ∉ ["yes"; "y"; "no"; "n"]) skipped
      ∧ str_strip (str_lower line) ∈ ["yes"; "y"].
Proof.
  assert (H : read_yes_no str_lower str_strip ["perhaps"; " Y "; "no"]
              = Some (true, ["no"])) by (vm_compute; reflexivity).
  split; [exact H |].
  exact (proj2 (read_yes_no_spec str_lower str_strip _) true ["no"] H).
Defined.

Lemma extract_features_effect_witness :
  let orca := Animal "Orca" {["mammal" := 1%Q]} in
  let orca' := extract_features_from_description str_lower orca "A GIANT of the Sea" in
  ("mammal" ∉ feature_keywords.*1)
  ∧ features orca' !! "mammal" = Some 1%Q
  ∧ features orca' !! "large" = Some 1%Q.
Proof.
  intros orca orca'.
  assert (Hout : "mammal" ∉ feature_keywords.*1).
  { apply (bool_decide_unpack _). vm_compute. reflexivity. }
  destruct (extract_features_effect str_lower orca "A GIANT of the Sea")
    as (_ & Hlookup & _ & Hother).
  split; [exact Hout |]. split.
  - unfold orca'. rewrite (Hother "mammal" Hout). reflexivity.
  - unfold orca'. rewrite (Hlookup "large"). reflexivity.
Defined.

(** A keyword of the description overrides the answer given in the game:
    taught that a penguin does not fly, with a description that mentions
    wings, the store records [flies = 1], and the penguin is no candidate
    for the answers it was taught with. *)
Example learn_description_overrides_answer :
  let self := Guesser [] default_questions [] in
  let self' := learn_from_game str_lower self "2024-01-01T00:00:00" "Penguin"
                 {["flies" := 0%Z]} "It has wings but swims" in
  (∃ penguin, animals self' = [penguin] ∧ features penguin !! "flies" = Some 1%Q)
  ∧ filter_candidates (animals self') {["flies" := 0%Z]} = [].
Proof.
  intros self self'. split.
  - eexists. split; [vm_compute; reflexivity | reflexivity].
  - vm_compute. reflexivity.
Qed.
